(** * Teaching snippets of the web-development resources, embedded in Rocq

    The repository is a set of tutorial documents; the runnable snippets
    they contain (TypeScript classes, a generic container, an iterator, a
    few promises) are embedded here as Rocq functions and the behaviour
    the guides narrate is proved about them.

    Conventions of the embedding:
    - a JavaScript [number] is an IEEE 754 double.  Where a value starts
      at 0 and takes more than 2^53 method calls to leave the integers
      that doubles count exactly, it is a [Z]; where a caller can hand
      in or assign any integer, arithmetic rounds as doubles do
      ([Double.round]); a [number] that is only stored, compared or
      added as it comes is a double of the Standard Library, with its
      comparison and its sum;
    - [console.log] appends one line to a list of strings, oldest first;
    - a method of a class is a state transformer on the pair of the
      receiver ([this]) and the console;
    - a template literal is a concatenation, a number inside it is
      printed in decimal. *)

From Stdlib Require Import ZArith Lia Bool List.
From Stdlib Require Import SpecFloat.
From stdpp Require Import base strings pretty list gmap.

Local Open Scope Z_scope.

(** ** Integers as doubles

    A double holds every integer up to 2^53 in absolute value; beyond,
    it holds the integers that 53 significant bits can write, and the
    result of an operation is the nearest of them, the one with the
    even last bit when two are equally near. *)

Module Double.

Definition round (z : Z) : Z :=
  let a := Z.abs z in
  if a <? 2 ^ 53 then z
  else
    let ulp := 2 ^ (Z.log2 a - 52) in
    let q := a / ulp in
    let r := a mod ulp in
    let q' := if 2 * r <? ulp then q
              else if ulp <? 2 * r then q + 1
              else if Z.even q then q else q + 1 in
    Z.sgn z * (q' * ulp).

(** [x + 1] and [x++] on a finite integer [x]; the result is finite. *)
Definition increment (x : Z) : Z := round (x + 1).

(** [x - 1] on a finite integer [x]. *)
Definition decrement (x : Z) : Z := round (x - 1).

(** The numbers that arithmetic on integers can give. *)
Inductive number :=
  | Finite (z : Z)
  | PlusInfinity
  | MinusInfinity
  | NotANumber.

(** The double for an exact integer result: rounded, and infinite from
    2^1024 on. *)
Definition of_exact (z : Z) : number :=
  let r := round z in
  if 2 ^ 1024 <=? r then PlusInfinity
  else if r <=? - 2 ^ 1024 then MinusInfinity
  else Finite r.

(** [x + y]; the sign of a zero is not kept. *)
Definition add (x y : number) : number :=
  match x, y with
  | NotANumber, _ | _, NotANumber => NotANumber
  | PlusInfinity, MinusInfinity | MinusInfinity, PlusInfinity => NotANumber
  | PlusInfinity, _ | _, PlusInfinity => PlusInfinity
  | MinusInfinity, _ | _, MinusInfinity => MinusInfinity
  | Finite a, Finite b => of_exact (a + b)
  end.

(** The infinity with the sign of [z], for a [z] that is not 0. *)
Definition infinity_signed (z : Z) : number :=
  if 0 <? z then PlusInfinity else MinusInfinity.

Definition opposite (x : number) : number :=
  match x with
  | Finite z => Finite (- z)
  | PlusInfinity => MinusInfinity
  | MinusInfinity => PlusInfinity
  | NotANumber => NotANumber
  end.

(** [x * y]; the sign of a zero is not kept. *)
Definition mul (x y : number) : number :=
  match x, y with
  | NotANumber, _ | _, NotANumber => NotANumber
  | Finite a, Finite b => of_exact (a * b)
  | Finite a, PlusInfinity | PlusInfinity, Finite a =>
      if a =? 0 then NotANumber else infinity_signed a
  | Finite a, MinusInfinity | MinusInfinity, Finite a =>
      if a =? 0 then NotANumber else opposite (infinity_signed a)
  | PlusInfinity, PlusInfinity | MinusInfinity, MinusInfinity => PlusInfinity
  | PlusInfinity, MinusInfinity | MinusInfinity, PlusInfinity => MinusInfinity
  end.

End Double.

(** The integer that a finite double of the Standard Library stands
    for, when it is one. *)
Definition double_value (x : spec_float) : option Z :=
  match x with
  | S754_zero _ => Some 0
  | S754_finite negative m e =>
      if 0 <=? e then Some ((if negative then -1 else 1) * (Z.pos m * 2 ^ e))
      else if Z.pos m mod 2 ^ (- e) =? 0
           then Some ((if negative then -1 else 1) * (Z.pos m / 2 ^ (- e)))
           else None
  | _ => None
  end.

(** ** A small runtime shared by the snippets *)

Module Js.

Definition Console := list string.

(** A method with receiver type [O] and result type [A]. *)
Definition Method (O A : Type) : Type := O * Console → A * (O * Console).

Definition ret {O A} (a : A) : Method O A := λ s, (a, s).

Definition bind {O A B} (m : Method O A) (k : A → Method O B) : Method O B :=
  λ s, let '(a, s') := m s in k a s'.

Definition get_this {O} : Method O O := λ s, (s.1, s).

Definition set_this {O} (o : O) : Method O unit := λ s, (tt, (o, s.2)).

Definition console_log {O} (line : string) : Method O unit :=
  λ s, (tt, (s.1, s.2 ++ [line])).

(** Calling a method on an object with a given console. *)
Definition call {O A} (m : Method O A) (o : O) (out : Console) : O * Console :=
  (m (o, out)).2.

(** The double-quote character, for the template literals that contain one. *)
Definition dquote : string := String (Ascii.ascii_of_nat 34) EmptyString.

End Js.

Global Instance Method_ret {O} : MRet (Js.Method O) := λ A, Js.ret.
Global Instance Method_bind {O} : MBind (Js.Method O) := λ A B k m, Js.bind m k.

(** ** The [Developer] class, three times *)

Inductive Call := DrinkCoffee | Code.

Global Instance Call_eq_dec : EqDecision Call.
Proof. solve_decision. Defined.

(** What the three versions of the class have in common: a constructor,
    the two methods, the caffeine field and the test that [code] makes. *)
Record DeveloperClass := {
  dev :> Type;
  dev_new : string → dev;
  dev_level : dev → Z;
  dev_drinkCoffee : Js.Method dev unit;
  dev_can_code : dev → bool;
  dev_code : Js.Method dev unit
}.

(** oop.ts, lines 4-28. *)
Module OopTs.

Record Developer := { name : string; caffeineLevels : Z }.

Definition new (name : string) : Developer :=
  {| name := name; caffeineLevels := 0 |}.

Definition drinkCoffee : Js.Method Developer unit :=
  this ← Js.get_this;
  let this := {| name := name this; caffeineLevels := caffeineLevels this + 2 |} in
  Js.set_this this;;
  Js.console_log (name this +:+ " drinks coffee and their new caffeine level is: "
                  +:+ pretty (caffeineLevels this)).

(** [this.caffeineLevels > 10] *)
Definition can_code (this : Developer) : bool := 10 <? caffeineLevels this.

Definition code : Js.Method Developer unit :=
  this ← Js.get_this;
  if can_code this then
    Js.console_log (name this +:+ " is coding like a pro");;
    Js.set_this {| name := name this; caffeineLevels := caffeineLevels this - 10 |}
  else
    Js.console_log (name this +:+ " needs coffee first").

Definition Developer_class : DeveloperClass :=
  {| dev := Developer; dev_new := new; dev_level := caffeineLevels;
     dev_drinkCoffee := drinkCoffee; dev_can_code := can_code; dev_code := code |}.

(** oop.ts, lines 37-59.  [commits] is public: it holds whatever
    integer was assigned to it, and [this.commits++] adds 1 as doubles do. *)
Record GitRepository := { secretToken : string; repoName : string; commits : Z }.

Definition new_repo (repoName token : string) : GitRepository :=
  {| secretToken := token; repoName := repoName; commits := 0 |}.

Definition authenticate : Js.Method GitRepository bool :=
  Js.console_log "Authenticating using secret token....";;
  this ← Js.get_this;
  mret (0 <? String.length (secretToken this))%nat.

Definition pushed_line (message : string) (commits : Z) : string :=
  "pushed: " +:+ Js.dquote +:+ message +:+ Js.dquote
  +:+ " (Total commits: " +:+ pretty commits +:+ ")".

Definition push (message : string) : Js.Method GitRepository unit :=
  authenticated ← authenticate;
  if authenticated : bool then
    this ← Js.get_this;
    let this := {| secretToken := secretToken this; repoName := repoName this;
                   commits := Double.increment (commits this) |} in
    Js.set_this this;;
    Js.console_log (pushed_line message (commits this))
  else mret tt.

End OopTs.

(** The OOP guide, first copy (lines 25-47 of the first unnamed part). *)
Module OopGuide.

Record Developer := { name : string; caffeineLevel : Z }.

Definition new (name : string) : Developer :=
  {| name := name; caffeineLevel := 0 |}.

Definition drinkCoffee : Js.Method Developer unit :=
  this ← Js.get_this;
  let this := {| name := name this; caffeineLevel := caffeineLevel this + 20 |} in
  Js.set_this this;;
  Js.console_log (name this +:+ " drinks coffee. Caffeine level: "
                  +:+ pretty (caffeineLevel this)).

(** [this.caffeineLevel > 0] *)
Definition can_code (this : Developer) : bool := 0 <? caffeineLevel this.

Definition code : Js.Method Developer unit :=
  this ← Js.get_this;
  if can_code this then
    Js.console_log (name this +:+ " is coding like a machine! 💻");;
    Js.set_this {| name := name this; caffeineLevel := caffeineLevel this - 10 |}
  else
    Js.console_log (name this +:+ " needs coffee first... ☕").

Definition Developer_class : DeveloperClass :=
  {| dev := Developer; dev_new := new; dev_level := caffeineLevel;
     dev_drinkCoffee := drinkCoffee; dev_can_code := can_code; dev_code := code |}.

(** The demo under the class (lines 49-53):
    [const junior = new Developer("Alice"); junior.drinkCoffee(); junior.code();] *)
Definition demo : Developer * Js.Console :=
  let junior := new "Alice" in
  let '(junior, out) := Js.call drinkCoffee junior [] in
  Js.call code junior out.

(** The guide's [GitRepository] (lines 62-88). *)
Record GitRepository := { secretToken : string; repoName : string; commits : Z }.

Definition new_repo (repoName token : string) : GitRepository :=
  {| secretToken := token; repoName := repoName; commits := 0 |}.

Definition authenticate : Js.Method GitRepository bool :=
  Js.console_log "🔐 Authenticating with secret token...";;
  this ← Js.get_this;
  mret (0 <? String.length (secretToken this))%nat.

Definition pushed_line (message : string) (commits : Z) : string :=
  "✅ Pushed: " +:+ Js.dquote +:+ message +:+ Js.dquote
  +:+ " (Total commits: " +:+ pretty commits +:+ ")".

Definition push (message : string) : Js.Method GitRepository unit :=
  authenticated ← authenticate;
  if authenticated : bool then
    this ← Js.get_this;
    let this := {| secretToken := secretToken this; repoName := repoName this;
                   commits := commits this + 1 |} in
    Js.set_this this;;
    Js.console_log (pushed_line message (commits this))
  else mret tt.

End OopGuide.

(** The OOP guide, second copy (lines 364-386 of the same part); the
    emoji of the messages are stored there in a damaged encoding. *)
Module OopGuideCopy.

Record Developer := { name : string; caffeineLevel : Z }.

Definition new (name : string) : Developer :=
  {| name := name; caffeineLevel := 0 |}.

Definition drinkCoffee : Js.Method Developer unit :=
  this ← Js.get_this;
  let this := {| name := name this; caffeineLevel := caffeineLevel this + 20 |} in
  Js.set_this this;;
  Js.console_log (name this +:+ " drinks coffee. Caffeine level: "
                  +:+ pretty (caffeineLevel this)).

Definition can_code (this : Developer) : bool := 0 <? caffeineLevel this.

Definition code : Js.Method Developer unit :=
  this ← Js.get_this;
  if can_code this then
    Js.console_log (name this +:+ " is coding like a machine! ğŸ’»");;
    Js.set_this {| name := name this; caffeineLevel := caffeineLevel this - 10 |}
  else
    Js.console_log (name this +:+ " needs coffee first... â˜•").

Definition Developer_class : DeveloperClass :=
  {| dev := Developer; dev_new := new; dev_level := caffeineLevel;
     dev_drinkCoffee := drinkCoffee; dev_can_code := can_code; dev_code := code |}.

End OopGuideCopy.

(** Running a sequence of calls on a developer: the final object, the
    console, and the branch that each [code] call took ([true] for the
    coding branch, [false] for the needs-coffee branch). *)
Fixpoint run_calls (C : DeveloperClass) (calls : list Call) (d : C) (out : Js.Console)
  : list bool * (C * Js.Console) :=
  match calls with
  | [] => ([], (d, out))
  | DrinkCoffee :: rest =>
      let '(d', out') := Js.call (dev_drinkCoffee C) d out in
      run_calls C rest d' out'
  | Code :: rest =>
      let branch := dev_can_code C d in
      let '(d', out') := Js.call (dev_code C) d out in
      let '(branches, final) := run_calls C rest d' out' in
      (branch :: branches, final)
  end.

(** What the comparison of two versions looks at: the caffeine level at
    the end and the branches taken, from a freshly constructed object. *)
Definition behaviour (C : DeveloperClass) (name : string) (calls : list Call)
  : Z * list bool :=
  let '(branches, (d, _)) := run_calls C calls (dev_new C name) [] in
  (dev_level C d, branches).

(** The number of coffees of a sequence of calls, and the number of
    coding branches among the branches taken. *)
Definition coffees (calls : list Call) : Z :=
  Z.of_nat (length (filter (λ c, c = DrinkCoffee) calls)).

Definition codings (branches : list bool) : Z :=
  Z.of_nat (length (filter (λ b, b = true) branches)).

(** The level of the guide's developer stays a non-negative multiple of 10. *)
Definition tens (level : Z) : Prop := 0 ≤ level ∧ (10 | level).

(** ** The generic container [DataStorage<T>]

    advanced_ts.md, lines 303-317, and the same class in the second
    unnamed part, lines 552-566.  Arrays are objects: the class holds a
    reference into a store of arrays, [push] changes the array in place,
    [filter] and the spread [[...a]] allocate a new one. *)

Module Generics.

Section DataStorage.

Context {T : Type}.

(** [i === item] on the element type. *)
Variable strict_eq : T → T → bool.

Definition loc := nat.

Definition alloc (xs : list T) (h : gmap loc (list T)) : loc * gmap loc (list T) :=
  let l := fresh (dom h) in (l, <[l := xs]> h).

Definition read (l : loc) (h : gmap loc (list T)) : list T := default [] (h !! l).

(** Any later change of the array at [l] by the code that holds it. *)
Definition write (l : loc) (xs : list T) (h : gmap loc (list T)) : gmap loc (list T) :=
  <[l := xs]> h.

Record DataStorage := { data : loc }.

Definition State : Type := DataStorage * gmap loc (list T).

(** [private data: T[] = [];] *)
Definition new (h : gmap loc (list T)) : State :=
  let '(l, h') := alloc [] h in ({| data := l |}, h').

(** [this.data.push(item)] *)
Definition addItem (item : T) (s : State) : State :=
  let '(this, h) := s in
  (this, <[data this := read (data this) h ++ [item]]> h).

(** [this.data = this.data.filter(i => i !== item)] *)
Definition removeItem (item : T) (s : State) : State :=
  let '(this, h) := s in
  let '(l, h') := alloc (List.filter (λ i, negb (strict_eq i item)) (read (data this) h)) h in
  ({| data := l |}, h').

(** [return [...this.data]]: the reference to the copy, and the store. *)
Definition getItems (s : State) : loc * State :=
  let '(this, h) := s in
  let '(l, h') := alloc (read (data this) h) h in
  (l, (this, h')).

(** The elements of the array that [getItems] returns. *)
Definition items (s : State) : list T :=
  let '(l, (_, h)) := getItems s in read l h.

(** The storage refers to an array of the store. *)
Definition wf (s : State) : Prop := data s.1 ∈ dom s.2.

(** Two states that differ at most in the array at [r], which is not the
    array of the storage. *)
Definition agree_off (r : loc) (s s' : State) : Prop :=
  s.1 = s'.1 ∧ data s.1 ≠ r ∧ r ∈ dom s.2 ∧ dom s.2 = dom s'.2
  ∧ ∀ l, l ≠ r → s.2 !! l = s'.2 !! l.

(** A caller of the class: it adds, removes, reads, or overwrites an
    array that it got from [getItems] earlier. *)
Inductive Op := Add (x : T) | Remove (x : T) | Get.

(** The lists that the [Get] calls of a sequence see. *)
Fixpoint run (ops : list Op) (s : State) : list (list T) :=
  match ops with
  | [] => []
  | Add x :: rest => run rest (addItem x s)
  | Remove x :: rest => run rest (removeItem x s)
  | Get :: rest => let '(l, s') := getItems s in read l s'.2 :: run rest s'
  end.

End DataStorage.

(** [===] on numbers is the comparison of IEEE 754 doubles, on strings
    the comparison of their characters. *)
Definition number : Type := spec_float.
Definition NaN : number := S754_nan.
Definition strict_eq_number : number → number → bool := SFeqb.
Definition strict_eq_string : string → string → bool := String.eqb.

End Generics.

(** ** Promises

    A promise is modelled by the run that settles it: a transformer of
    the world that ends fulfilled with a value or rejected with a reason.
    The snippets consume each promise once, in one chain. *)

Module Async.

Inductive Settled (E A : Type) :=
  | Fulfilled (value : A)
  | Rejected (reason : E).
Global Arguments Fulfilled {E A} value.
Global Arguments Rejected {E A} reason.

Definition Promise (W E A : Type) : Type := W → Settled E A * W.

(** [Promise.resolve(v)], and a handler that returns the plain value [v]. *)
Definition resolve {W E A} (v : A) : Promise W E A := λ w, (Fulfilled v, w).

(** [Promise.reject(e)], and [throw e] inside an async function or handler. *)
Definition reject {W E A} (e : E) : Promise W E A := λ w, (Rejected e, w).

(** [p.then(f)], and [const x = await p; f x] inside an async function. *)
Definition then_ {W E A B} (p : Promise W E A) (f : A → Promise W E B) : Promise W E B :=
  λ w, match p w with
       | (Fulfilled a, w') => f a w'
       | (Rejected e, w') => (Rejected e, w')
       end.

(** [p.catch(h)], and [try { p } catch (e) { h e }]. *)
Definition catch_ {W E A} (p : Promise W E A) (h : E → Promise W E A) : Promise W E A :=
  λ w, match p w with
       | (Fulfilled a, w') => (Fulfilled a, w')
       | (Rejected e, w') => h e w'
       end.

(** An effect on the world that cannot fail. *)
Definition effect {W E} (f : W → W) : Promise W E unit := λ w, (Fulfilled tt, f w).

End Async.

Global Instance Promise_ret {W E} : MRet (Async.Promise W E) := λ A, Async.resolve.
Global Instance Promise_bind {W E} : MBind (Async.Promise W E) := λ A B f p, Async.then_ p f.

(** ** Values, the clock and the two consoles of the promise snippets *)

Module Runtime.

#[warnings="-register-all"]
Inductive JsVal :=
  | VUndefined
  | VNum (n : Z)
  | VStr (s : string)
  | VObj (fields : list (string * JsVal)).

(** The conversion to boolean that [if] applies to its condition. *)
Definition truthy (v : JsVal) : bool :=
  match v with
  | VUndefined => false
  | VNum n => negb (n =? 0)
  | VStr s => negb (String.eqb s EmptyString)
  | VObj _ => true
  end.

(** [now] is in milliseconds; a console line is the list of the
    arguments of the call that printed it. *)
Record World := {
  now : Z;
  stdout : list (list JsVal);
  stderr : list (list JsVal)
}.

Definition start : World := {| now := 0; stdout := []; stderr := [] |}.

Definition Promise (A : Type) : Type := Async.Promise World JsVal A.

Definition console_log (args : list JsVal) : Promise unit :=
  Async.effect (λ w, {| now := now w; stdout := stdout w ++ [args]; stderr := stderr w |}).

Definition console_error (args : list JsVal) : Promise unit :=
  Async.effect (λ w, {| now := now w; stdout := stdout w; stderr := stderr w ++ [args] |}).

(** [new Promise((resolve, reject) => { setTimeout(() => { body }, ms) })]
    where [body] calls [resolve] or [reject] once: the timer fires [ms]
    later and the promise settles as [body] says. *)
Definition new_Promise_setTimeout {A} (body : Async.Settled JsVal A) (ms : Z) : Promise A :=
  λ w, (body, {| now := now w + ms; stdout := stdout w; stderr := stderr w |}).

End Runtime.

(** ** ES6.md *)

Module Es6Guide.

Import Runtime.

(** *** The range iterator (lines 1206-1224) *)

(** The closure that [createRangeIterator] returns: [current] is its
    variable, [end] its parameter; [current++] adds 1 as doubles do. *)
Record RangeIterator := { current : Z; end_ : Z }.

(** [{ value: v, done: false }] and [{ done: true }]. *)
Record IteratorResult := { value : option Z; done : bool }.

Definition createRangeIterator (start end_ : Z) : RangeIterator :=
  {| current := start; end_ := end_ |}.

Definition next (it : RangeIterator) : IteratorResult * RangeIterator :=
  if current it <? end_ it then
    ({| value := Some (current it); done := false |},
     {| current := Double.increment (current it); end_ := end_ it |})
  else
    ({| value := None; done := true |}, it).

(** The results of [n] successive calls of [next]. *)
Fixpoint nexts (n : nat) (it : RangeIterator) : list IteratorResult :=
  match n with
  | O => []
  | S n' => let '(r, it') := next it in r :: nexts n' it'
  end.

(** *** Promise chaining (lines 1423-1457) *)

Definition step1 : Promise JsVal :=
  new_Promise_setTimeout (Async.Fulfilled (VStr "Step 1 completed")) 1000.

(** The template literal of [step2] and [step3], for the string that the
    chain passes along. *)
Definition template (previousResult : JsVal) (suffix : string) : JsVal :=
  match previousResult with
  | VStr s => VStr (s +:+ suffix)
  | VNum n => VStr (pretty n +:+ suffix)
  | VUndefined => VStr ("undefined" +:+ suffix)
  | VObj _ => VStr ("[object Object]" +:+ suffix)
  end.

Definition step2 (previousResult : JsVal) : Promise JsVal :=
  new_Promise_setTimeout
    (Async.Fulfilled (template previousResult " -> Step 2 completed")) 1000.

Definition step3 (previousResult : JsVal) : Promise JsVal :=
  new_Promise_setTimeout
    (Async.Fulfilled (template previousResult " -> Step 3 completed")) 1000.

(** [step1().then(...).then(...)]: the promise whose value the last
    [then] handler receives as [finalResult]. *)
Definition chain_steps : Promise JsVal :=
  Async.then_
    (Async.then_ step1 (λ result1, console_log [result1];; step2 result1))
    (λ result2, console_log [result2];; step3 result2).

(** The whole chain: the last handler prints and returns nothing, the
    [catch] handler prints on the error console. *)
Definition chain : Promise JsVal :=
  Async.catch_
    (Async.then_ chain_steps
       (λ finalResult, console_log [finalResult];; mret VUndefined))
    (λ error, console_error [VStr "Error in chain:"; error];; mret VUndefined).

(** *** [DataProcessor.fetchData] (lines 92-125)

    [fetch] and [JSON.stringify] belong to the platform: the serializer
    is a parameter, and so is the server, which answers a request in
    view of the requests made before it. *)

Section DataProcessor.

Variables Params Data : Type.
Variable JSON_stringify : Params → string.

Record Error := { message : string }.

Record Request := {
  req_url : string;
  req_method : string;
  req_headers : list (string * string);
  req_body : string
}.

(** [json] is what [response.json()] settles to. *)
Record Response := {
  ok : bool;
  status : Z;
  statusText : string;
  json : Async.Settled Error Data
}.

Variable server : list Request → Request → Async.Settled Error Response.

Record DataProcessor := { apiUrl : string; cache : gmap string Data }.

Record Env := {
  this : DataProcessor;
  requests : list Request;
  errors : list (string * Error)
}.

Definition new_DataProcessor (apiUrl : string) : DataProcessor :=
  {| apiUrl := apiUrl; cache := ∅ |}.

Definition fetch (req : Request) : Async.Promise Env Error Response :=
  λ w, (server (requests w) req,
        {| this := this w; requests := requests w ++ [req]; errors := errors w |}).

Definition response_json (response : Response) : Async.Promise Env Error Data :=
  λ w, (json response, w).

Definition cache_set (cacheKey : string) (data : Data) : Async.Promise Env Error unit :=
  Async.effect (λ w,
    {| this := {| apiUrl := apiUrl (this w); cache := <[cacheKey := data]> (cache (this w)) |};
       requests := requests w; errors := errors w |}).

Definition log_error (label : string) (error : Error) : Async.Promise Env Error unit :=
  Async.effect (λ w,
    {| this := this w; requests := requests w; errors := errors w ++ [(label, error)] |}).

Definition fetchData (endpoint : string) (params : Params) : Async.Promise Env Error Data :=
  λ w,
    let url := apiUrl (this w) +:+ "/" +:+ endpoint in
    let cacheKey := url +:+ "-" +:+ JSON_stringify params in
    match cache (this w) !! cacheKey with
    | Some cached => (Async.Fulfilled cached, w)
    | None =>
        Async.catch_
          (response ← fetch {| req_url := url; req_method := "POST";
                               req_headers := [("Content-Type", "application/json")];
                               req_body := JSON_stringify params |};
           if negb (ok response) then
             Async.reject {| message := "HTTP " +:+ pretty (status response) +:+ ": "
                                        +:+ statusText response |}
           else
             data ← response_json response;
             cache_set cacheKey data;;
             mret data)
          (λ error, log_error "Fetch failed:" error;; Async.reject error)
          w
    end.

End DataProcessor.

End Es6Guide.

(** ** es6_demo.js *)

Module Es6Demo.

Import Runtime.

(** [fetchUser] (lines 152-163).  The condition of the [if] is the
    assignment [user_id = usersId]: it stores [usersId] in [user_id] and
    has the stored value as its value. *)
Definition fetchUser (user_id : JsVal) : Promise JsVal :=
  let usersId := VNum 1 in
  new_Promise_setTimeout
    (let user_id := usersId in
     if truthy user_id then
       Async.Fulfilled (VObj [("id", user_id); ("name", VStr "Tiff")])
     else
       Async.Rejected (VStr "Failed to fetch user"))
    1000.

(** [user_id === 1], the comparison that the narration describes. *)
Definition is_one (v : JsVal) : bool :=
  match v with VNum m => m =? 1 | _ => false end.

(** The narrated behaviour of [fetchUser]: resolve with the user when
    [user_id] is 1, reject otherwise. *)
Definition fetchUser_narrated (user_id : JsVal) : Promise JsVal :=
  new_Promise_setTimeout
    (if is_one user_id then
       Async.Fulfilled (VObj [("id", user_id); ("name", VStr "Tiff")])
     else
       Async.Rejected (VStr "Failed to fetch user"))
    1000.

(** The call under the function (lines 166-171):
    [fetchUser(24).then(user => console.log(user)).catch(error => ...)]. *)
Definition consume (p : Promise JsVal) : Promise unit :=
  Async.catch_
    (Async.then_ p (λ user, console_log [user]))
    (λ error, console_error [VStr "Error found is:"; error]).

Definition demo : Promise unit := consume (fetchUser (VNum 24)).

End Es6Demo.

(** ** Sequences of pushes *)

(** [repo.push(m1); repo.push(m2); ...] on a repository of oop.ts and of
    the guide. *)
Fixpoint OopTs_push_all (messages : list string) (r : OopTs.GitRepository)
    (out : Js.Console) : OopTs.GitRepository * Js.Console :=
  match messages with
  | [] => (r, out)
  | m :: rest => let '(r', out') := Js.call (OopTs.push m) r out in
                 OopTs_push_all rest r' out'
  end.

Fixpoint OopGuide_push_all (messages : list string) (r : OopGuide.GitRepository)
    (out : Js.Console) : OopGuide.GitRepository * Js.Console :=
  match messages with
  | [] => (r, out)
  | m :: rest => let '(r', out') := Js.call (OopGuide.push m) r out in
                 OopGuide_push_all rest r' out'
  end.

(** ** Iterables and generators of ES6.md *)

Module Iteration.

(** What [for...of] and the spread [[...it]] do with an iterator: call
    [next] until a result says [done], and keep the results before it.
    [fuel] bounds the number of calls; [None] when it does not suffice. *)
Fixpoint iterate {S R : Type} (next : S → R * S) (is_done : R → bool)
    (fuel : nat) (it : S) : option (list R) :=
  match fuel with
  | O => None
  | S fuel' =>
      let '(r, it') := next it in
      if is_done r then Some []
      else match iterate next is_done fuel' it' with
           | Some rs => Some (r :: rs)
           | None => None
           end
  end.

(** The iterable object [range] (lines 1227-1244): its
    [[Symbol.iterator]()] builds the closure of [createRangeIterator]
    from the fields [start] and [end]; the code of [next] is the same. *)
Record Range := { start : Z; end_ : Z }.

Definition symbol_iterator (this : Range) : Es6Guide.RangeIterator :=
  {| Es6Guide.current := start this; Es6Guide.end_ := end_ this |}.

(** [[...range]]: the [value] of every result before the first [done].
    An array has at most 2^32 - 1 elements: [None] also when the
    iterator gives more. *)
Definition spread (fuel : nat) (this : Range) : option (list (option Z)) :=
  match iterate Es6Guide.next Es6Guide.done fuel (symbol_iterator this) with
  | Some results =>
      if Z.of_nat (length results) <=? 2 ^ 32 - 1
      then Some (Es6Guide.value <$> results)
      else None
  | None => None
  end.

(** [Array.from({ length: len }, (_, i) => f(i))]: a negative length
    counts as 0, a length above 2^32 - 1 is a [RangeError] ([None]). *)
Definition Array_from_length {A} (len : Z) (f : Z → A) : option (list A) :=
  if 2 ^ 32 - 1 <? len then None
  else Some ((λ i : nat, f (Z.of_nat i)) <$> seq 0 (Z.to_nat len)).

(** [const range = (start, end) => Array.from({ length: end - start },
    (_, i) => start + i)] (line 1836); the difference and the sums are
    those of doubles. *)
Definition range (start end_ : Z) : option (list Z) :=
  Array_from_length (Double.round (end_ - start)) (λ i, Double.round (start + i)).

(** A result of a generator's [next()], over any type of values. *)
Record Result (A : Type) := { value : option A; done : bool }.
Global Arguments value {A} r.
Global Arguments done {A} r.

(** [function* fibonacci()] (lines 1277-1283): before the first
    [next()] nothing has run; afterwards the generator is suspended at
    [yield a] with the [a] and [b] of that moment.  [a + b] is the sum
    of doubles. *)
Inductive Fibonacci := FibCreated | FibYielded (a b : Double.number).

Definition fibonacci : Fibonacci := FibCreated.

Definition fibonacci_next (g : Fibonacci) : Result Double.number * Fibonacci :=
  match g with
  | FibCreated =>
      let a := Double.Finite 0 in let b := Double.Finite 1 in
      ({| value := Some a; done := false |}, FibYielded a b)
  | FibYielded a b =>
      let '(a, b) := (b, Double.add a b) in
      ({| value := Some a; done := false |}, FibYielded a b)
  end.

(** The results of [n] successive calls of [next] on a generator. *)
Fixpoint generate {G A : Type} (next : G → Result A * G) (n : nat) (g : G)
  : list (Result A) :=
  match n with
  | O => []
  | S n' => let '(r, g') := next g in r :: generate next n' g'
  end.

(** The Fibonacci numbers: 0, 1, and the sum of the two before. *)
Fixpoint fib (n : nat) : Z :=
  match n with
  | O => 0
  | S n' => match n' with
            | O => 1
            | S n'' => fib n' + fib n''
            end
  end.

(** The same numbers, two at a time. *)
Fixpoint fib_pair (n : nat) : Z * Z :=
  match n with
  | O => (0, 1)
  | S n' => let '(a, b) := fib_pair n' in (b, a + b)
  end.

(** [function* arrayGenerator(arr)] (lines 1293-1297): the generator is
    about to test [i < arr.length], or it has returned. *)
Inductive ArrayGeneratorState := AtTest (i : nat) | Returned.

Record ArrayGenerator (A : Type) := { arr : list A; state : ArrayGeneratorState }.
Global Arguments arr {A} a.
Global Arguments state {A} a.

Definition arrayGenerator {A} (arr : list A) : ArrayGenerator A :=
  {| arr := arr; state := AtTest 0 |}.

Definition arrayGenerator_next {A} (g : ArrayGenerator A) : Result A * ArrayGenerator A :=
  match state g with
  | AtTest i =>
      match arr g !! i with
      | Some x => ({| value := Some x; done := false |},
                   {| arr := arr g; state := AtTest (S i) |})
      | None => ({| value := None; done := true |},
                 {| arr := arr g; state := Returned |})
      end
  | Returned => ({| value := None; done := true |}, g)
  end.

End Iteration.

(** ** Classes of ES6.md *)

Module Es6Classes.

(** [MathUtils.factorial] (lines 879-882) on an integer [n]; [n - 1]
    and the product are those of doubles.  [stack] is the number of
    nested calls that the call stack has room for: [None] is the
    [RangeError] of a stack that is exceeded. *)
Fixpoint factorial (stack : nat) (n : Z) : option Double.number :=
  match stack with
  | O => None
  | S stack' =>
      if n <=? 1 then Some (Double.Finite 1)
      else match factorial stack' (Double.decrement n) with
           | Some r => Some (Double.mul (Double.Finite n) r)
           | None => None
           end
  end.

(** The factorial of the natural numbers, in integers:
    [n! = n * (n - 1)!] and [0! = 1]. *)
Fixpoint factorial_of (m : nat) : Z :=
  match m with
  | O => 1
  | S m' => Z.of_nat m * factorial_of m'
  end.

(** [Calculator] (lines 717-730): [add] returns [this], so that calls
    chain.  The class works on any number: [number] is the type of the
    numbers it is run on, [plus] their [+], which [this.result += num]
    uses, and [zero] the 0 of the constructor. *)
Record Calculator (number : Type) := { result : number }.
Global Arguments Build_Calculator {number} result.
Global Arguments result {number} c.

Section Calculator.

Context {number : Type}.
Variable plus : number → number → number.
Variable zero : number.

Definition new_Calculator : Calculator number := {| result := zero |}.

Definition add (num : number) (this : Calculator number) : Calculator number :=
  {| result := plus (result this) num |}.

Definition getResult (this : Calculator number) : number := result this.

(** [calc.add(n1).add(n2)...] *)
Definition add_all (nums : list number) (this : Calculator number) : Calculator number :=
  foldl (λ calc num, add num calc) this nums.

End Calculator.

(** The doubles with their sum, and the doubles that the literals
    [0.1], [0.2] and [0.3] stand for. *)
Definition double_plus : Generics.number → Generics.number → Generics.number :=
  SFadd 53 1024.
Definition double_zero : Generics.number := S754_zero false.
Definition tenth : Generics.number := S754_finite false 7205759403792794 (-56).
Definition fifth : Generics.number := S754_finite false 7205759403792794 (-55).
Definition three_tenths : Generics.number := S754_finite false 5404319552844595 (-54).

(** The sum of the absolute values of a list of integers. *)
Definition sum_abs (nums : list Z) : Z := foldr (λ n acc, Z.abs n + acc) 0 nums.

(** [Counter] (lines 899-916): [count] and [instances] are static, that
    is, one pair for the class. *)
Record Counter := { name : string }.

Record CounterClass := { count : Z; instances : list Counter }.

Definition Counter_initial : CounterClass := {| count := 0; instances := [] |}.

Definition new_Counter (name : string) (cls : CounterClass) : Counter * CounterClass :=
  let this := {| name := name |} in
  (this, {| count := count cls + 1; instances := instances cls ++ [this] |}).

Definition getCount (cls : CounterClass) : Z := count cls.

Definition getAllInstances (cls : CounterClass) : list Counter := instances cls.

(** [new Counter(n1); new Counter(n2); ...] *)
Definition new_Counters (names : list string) (cls : CounterClass) : CounterClass :=
  foldl (λ cls name, (new_Counter name cls).2) cls names.

End Es6Classes.

(** ** Array helpers of ES6.md *)

Module Es6Arrays.

(** [array.findIndex(condition)]: the index of the first element that
    satisfies [condition], -1 when there is none. *)
Fixpoint findIndex_from {A} (index : Z) (condition : A → bool) (array : list A) : Z :=
  match array with
  | [] => -1
  | x :: rest => if condition x then index else findIndex_from (index + 1) condition rest
  end.

Definition findIndex {A} (condition : A → bool) (array : list A) : Z :=
  findIndex_from 0 condition array.

Section Products.

(** A product is an object: a finite map from property names to values;
    [strict_eq] is [===] on the values, [undefined] the value of a
    property that an object does not have. *)
Context {V : Type}.
Variable strict_eq : V → V → bool.
Variable undefined : V.

(** [product.id === id] *)
Definition has_id (id : V) (product : gmap string V) : bool :=
  strict_eq (default undefined (product !! "id")) id.

(** [updateProduct] (lines 1911-1918): the result and the array after
    the call; [{ ...products[index], ...updates }] takes the properties
    of [updates] first. *)
Definition updateProduct (products : list (gmap string V)) (id : V)
    (updates : gmap string V) : bool * list (gmap string V) :=
  let index := findIndex (has_id id) products in
  if negb (index =? -1) then
    (true, <[Z.to_nat index := updates ∪ (products !!! Z.to_nat index)]> products)
  else
    (false, products).

End Products.

(** [removeByCondition] (lines 1925-1931): the result ([None] for
    [null]) and the array after the call; [splice(index, 1)] takes the
    element at [index] out. *)
Definition removeByCondition {A} (array : list A) (condition : A → bool)
  : option A * list A :=
  let index := findIndex condition array in
  if negb (index =? -1) then
    (array !! Z.to_nat index, delete (Z.to_nat index) array)
  else
    (None, array).

(** The polyfill of [Object.is] (lines 2053-2064), on numbers. *)
Definition zero : Generics.number := S754_zero false.
Definition one : Generics.number := S754_finite false 4503599627370496 (-52).
Definition divide (x y : Generics.number) : Generics.number := SFdiv 53 1024 x y.

Definition Object_is (x y : Generics.number) : bool :=
  if negb (Generics.strict_eq_number x x) && negb (Generics.strict_eq_number y y) then
    true
  else if Generics.strict_eq_number x zero && Generics.strict_eq_number y zero then
    Generics.strict_eq_number (divide one x) (divide one y)
  else
    Generics.strict_eq_number x y.

(** [includesValue] (lines 2044-2046): [array.some(item => Object.is(item, value))]. *)
Definition includesValue (array : list Generics.number) (value : Generics.number) : bool :=
  existsb (λ item, Object_is item value) array.

End Es6Arrays.

(** ** The generic [Repository] of advanced_ts.md (lines 329-339) *)

Module TsRepository.

Section Repository.

(** [T extends { id: number }] *)
Context {T : Type}.
Variable id : T → Z.

Record Repository := { items : list T }.

Definition new : Repository := {| items := [] |}.

Definition add (item : T) (this : Repository) : Repository :=
  {| items := items this ++ [item] |}.


End Repository.

End TsRepository.

(** ** More of the generic container *)

(** The state of a storage after a sequence of calls of its user. *)
Fixpoint DataStorage_exec {T} (strict_eq : T → T → bool) (ops : list (@Generics.Op T))
    (s : @Generics.State T) : @Generics.State T :=
  match ops with
  | [] => s
  | Generics.Add x :: rest => DataStorage_exec strict_eq rest (Generics.addItem x s)
  | Generics.Remove x :: rest =>
      DataStorage_exec strict_eq rest (Generics.removeItem strict_eq x s)
  | Generics.Get :: rest => DataStorage_exec strict_eq rest (Generics.getItems s).2
  end.

(** The array of another storage is out of the reach of a storage. *)
Definition apart {T} (other : Generics.loc) (s : @Generics.State T) : Prop :=
  Generics.wf s ∧ other ∈ dom s.2 ∧ other ≠ Generics.data s.1.

(** ** Asynchronous functions that recover from failure *)

Module Recovery.

(** [getUser] and [safeGetUser] (advanced_ts.md, lines 148-163, and the
    second unnamed part, lines 410-427).  [fetch] belongs to the
    platform: the server says, in view of the URLs requested before,
    whether [fetch] fails, and what [response.json()] settles to. *)
Section SafeGetUser.

Variable User : Type.
Variable server : list string → string
                  → Async.Settled Es6Guide.Error (Async.Settled Es6Guide.Error User).

Record World := { requests : list string; errors : list (string * Es6Guide.Error) }.

Definition fetch (url : string)
  : Async.Promise World Es6Guide.Error (Async.Settled Es6Guide.Error User) :=
  λ w, (server (requests w) url,
        {| requests := requests w ++ [url]; errors := errors w |}).

Definition response_json (response : Async.Settled Es6Guide.Error User)
  : Async.Promise World Es6Guide.Error User :=
  λ w, (response, w).

Definition console_error (label : string) (error : Es6Guide.Error)
  : Async.Promise World Es6Guide.Error unit :=
  Async.effect (λ w, {| requests := requests w; errors := errors w ++ [(label, error)] |}).

Definition getUser (id : Z) : Async.Promise World Es6Guide.Error User :=
  response ← fetch ("/api/users/" +:+ pretty id);
  data ← response_json response;
  mret data.

(** The message of the guide; the copy in the unnamed part prints
    'Failed to fetch Users'. *)
Definition safeGetUser (id : Z) : Async.Promise World Es6Guide.Error (option User) :=
  Async.catch_
    (user ← getUser id; mret (Some user))
    (λ error, console_error "Failed to fetch user:" error;; mret None).

End SafeGetUser.

(** [riskyOperation] and [attemptOperation] (ES6.md, lines 1554-1596).
    [Math.random] belongs to the platform: [random n] is what its
    [n]-th call returns, [above_half] the test [random > 0.5], [show]
    the text of a number in a template literal. *)
Section AttemptOperation.

Variable Random : Type.
Variable random : nat → Random.
Variable above_half : Random → bool.
Variable show : Random → string.

Record Env := { now : Z; draws : nat; stdout : list string }.

Definition riskyOperation : Async.Promise Env Es6Guide.Error string :=
  λ w,
    let r := random (draws w) in
    (if above_half r then Async.Fulfilled ("Success with " +:+ show r)
     else Async.Rejected {| Es6Guide.message := "Failed with " +:+ show r |},
     {| now := now w + 1000; draws := S (draws w); stdout := stdout w |}).

Definition console_log (line : string) : Async.Promise Env Es6Guide.Error unit :=
  Async.effect (λ w, {| now := now w; draws := draws w; stdout := stdout w ++ [line] |}).

Definition attemptOperation : Async.Promise Env Es6Guide.Error string :=
  Async.catch_
    (Async.catch_ riskyOperation
       (λ error, console_log "First attempt failed, trying again...";; riskyOperation))
    (λ error, console_log "Second attempt failed, using fallback";;
              mret "Fallback value").

End AttemptOperation.

End Recovery.

(** ** A tagged template and a validating setter of ES6.md *)

Module Es6Syntax.

Import Runtime.

(** The text of a value inside a template literal. *)
Definition to_string (v : JsVal) : string :=
  match v with
  | VUndefined => "undefined"
  | VNum n => pretty n
  | VStr s => s
  | VObj _ => "[object Object]"
  end.

(** [array.reduce((acc, x, i) => f(acc, x, i), init)] *)
Fixpoint reduce_from {A B} (f : B → A → nat → B) (acc : B) (i : nat) (array : list A) : B :=
  match array with
  | [] => acc
  | x :: rest => reduce_from f (f acc x i) (S i) rest
  end.

Definition reduce {A B} (f : B → A → nat → B) (init : B) (array : list A) : B :=
  reduce_from f init 0 array.

(** [highlight] (lines 580-584); [values[i]] is [undefined] past the end
    of [values]. *)
Definition highlight (strings : list string) (values : list JsVal) : string :=
  reduce
    (λ result string i,
       (result +:+ string)
       +:+ (if truthy (default VUndefined (values !! i))
            then "<strong>" +:+ to_string (default VUndefined (values !! i)) +:+ "</strong>"
            else EmptyString))
    EmptyString strings.

(** What [highlight] is meant to build, piece by piece: each string,
    followed by the mark-up of the value after it, if that value is
    there and truthy. *)
Fixpoint interleave (strings : list string) (values : list JsVal) : string :=
  match strings with
  | [] => EmptyString
  | s :: rest =>
      s +:+ (match values with
             | v :: _ => if truthy v then "<strong>" +:+ to_string v +:+ "</strong>"
                         else EmptyString
             | [] => EmptyString
             end)
        +:+ interleave rest (tail values)
  end.

(** [Circle] (lines 793-818) without its computed getters; the radius
    is a double, and the setter reports what it throws. *)
Record Circle := { _radius : Generics.number }.

Definition new_Circle (radius : Generics.number) : Circle := {| _radius := radius |}.

Definition get_radius (this : Circle) : Generics.number := _radius this.

Definition set_radius (value : Generics.number) (this : Circle)
  : option Es6Guide.Error * Circle :=
  if SFleb value (S754_zero false) then
    (Some {| Es6Guide.message := "Radius must be positive" |}, this)
  else
    (None, {| _radius := value |}).

(** [circle.radius = v1; circle.radius = v2; ...], each in a [try] of
    its own. *)
Definition set_radius_all (values : list Generics.number) (this : Circle) : Circle :=
  foldl (λ circle value, (set_radius value circle).2) this values.

End Es6Syntax.

(** ** [DataProcessor.fetchData] in two parts, and [processUsers]

    An [async] function runs up to its first [await] when it is called;
    the rest runs when the awaited promise settles.  In [fetchData] the
    first part ends with the call of [fetch]. *)

Section DataProcessorCalls.

Variables UserId Params Data : Type.
Variable JSON_stringify : Params → string.
Variable server : list Es6Guide.Request → Es6Guide.Request
                  → Async.Settled Es6Guide.Error (Es6Guide.Response Data).

(** The object literal [{ id }]. *)
Variable id_params : UserId → Params.

(** A call of [fetchData] after its first part: it has returned the
    cached value, or it waits for the answer to its request. *)
Inductive Started :=
  | FromCache (cached : Data)
  | Waiting (cacheKey : string)
            (answer : Async.Settled Es6Guide.Error (Es6Guide.Response Data)).

Definition fetchData_start (endpoint : string) (params : Params) (w : Es6Guide.Env Data)
  : Started * Es6Guide.Env Data :=
  let url := Es6Guide.apiUrl Data (Es6Guide.this Data w) +:+ "/" +:+ endpoint in
  let cacheKey := url +:+ "-" +:+ JSON_stringify params in
  match Es6Guide.cache Data (Es6Guide.this Data w) !! cacheKey with
  | Some cached => (FromCache cached, w)
  | None =>
      let '(answer, w') :=
        Es6Guide.fetch Data server
          {| Es6Guide.req_url := url; Es6Guide.req_method := "POST";
             Es6Guide.req_headers := [("Content-Type", "application/json")];
             Es6Guide.req_body := JSON_stringify params |} w in
      (Waiting cacheKey answer, w')
  end.

(** The second part, from the answer on. *)
Definition fetchData_finish (started : Started)
  : Async.Promise (Es6Guide.Env Data) Es6Guide.Error Data :=
  match started with
  | FromCache cached => Async.resolve cached
  | Waiting cacheKey answer =>
      Async.catch_
        (response ← (λ w, (answer, w));
         if negb (Es6Guide.ok Data response) then
           Async.reject {| Es6Guide.message :=
                             "HTTP " +:+ pretty (Es6Guide.status Data response) +:+ ": "
                             +:+ Es6Guide.statusText Data response |}
         else
           data ← Es6Guide.response_json Data response;
           Es6Guide.cache_set Data cacheKey data;;
           mret data)
        (λ error, Es6Guide.log_error Data "Fetch failed:" error;; Async.reject error)
  end.

(** The first statement of [processUsers] (line 127):
    [userIds.map(id => this.fetchData('users', { id }))].  Every call
    runs its first part, in the order of the array; no answer is used
    before the [map] is over. *)
Fixpoint processUsers_map (userIds : list UserId) (w : Es6Guide.Env Data)
  : list Started * Es6Guide.Env Data :=
  match userIds with
  | [] => ([], w)
  | id :: rest =>
      let '(started, w') := fetchData_start "users" (id_params id) w in
      let '(others, w'') := processUsers_map rest w' in
      (started :: others, w'')
  end.

(** The key and the request of the call for [id]. *)
Definition user_key (w : Es6Guide.Env Data) (id : UserId) : string :=
  (Es6Guide.apiUrl Data (Es6Guide.this Data w) +:+ "/" +:+ "users")
  +:+ "-" +:+ JSON_stringify (id_params id).

Definition user_request (w : Es6Guide.Env Data) (id : UserId) : Es6Guide.Request :=
  {| Es6Guide.req_url := Es6Guide.apiUrl Data (Es6Guide.this Data w) +:+ "/" +:+ "users";
     Es6Guide.req_method := "POST";
     Es6Guide.req_headers := [("Content-Type", "application/json")];
     Es6Guide.req_body := JSON_stringify (id_params id) |}.

(** The ids of the array that the cache does not have. *)
Definition uncached (w : Es6Guide.Env Data) (userIds : list UserId) : list UserId :=
  List.filter
    (λ id, bool_decide (Es6Guide.cache Data (Es6Guide.this Data w) !! user_key w id = None))
    userIds.

End DataProcessorCalls.

(** * Properties *)

(** ** Integers as doubles *)

Lemma Double_round_safe (z : Z) : Z.abs z ≤ 2 ^ 53 → Double.round z = z.
Proof.
  intros H. unfold Double.round.
  destruct (Z.ltb_spec (Z.abs z) (2 ^ 53)) as [Hlt|Hge]; [done|].
  assert (z = 2 ^ 53 ∨ z = - 2 ^ 53) as [-> | ->] by lia; reflexivity.
Qed.

Lemma Double_increment_safe (x : Z) :
  - 2 ^ 53 ≤ x < 2 ^ 53 → Double.increment x = x + 1.
Proof. intros H. apply Double_round_safe. lia. Qed.

Lemma Double_of_exact_safe (z : Z) : Z.abs z ≤ 2 ^ 53 → Double.of_exact z = Double.Finite z.
Proof.
  intros H. unfold Double.of_exact. rewrite Double_round_safe by done.
  destruct (Z.leb_spec (2 ^ 1024) z); [lia|].
  destruct (Z.leb_spec z (- 2 ^ 1024)); [lia | done].
Qed.

(** The rounding agrees with the binary64 of the Standard Library
    ([binary_normalize] rounds the integer [z], that is [z * 2^0]) on
    the integers that the counterexamples below use, and around them. *)
Example Double_round_is_binary64 :
  let tested :=
    [ 0; 1; -1; 2 ^ 53 - 1; 2 ^ 53; 2 ^ 53 + 1; 2 ^ 53 + 2; 2 ^ 53 + 3; - 2 ^ 53 - 1;
      - 2 ^ 53 - 3; 2 ^ 54 + 2; 2 ^ 54 + 6; 14472334024676221; 23416728348467685;
      25852016738884976640000; 2 ^ 1023 ] in
  (λ z, double_value (binary_normalize 53 1024 z 0 false)) <$> tested
  = (λ z, Some (Double.round z)) <$> tested.
Proof. vm_compute. reflexivity. Qed.

(** So do the sum and the product of two integers that doubles hold. *)
Example Double_add_mul_are_binary64 :
  let tested :=
    [ (0, 0); (1, -1); (2 ^ 53, 1); (2 ^ 53, 2); (2 ^ 53 + 2, 1); (2 ^ 53 + 2, 3);
      (- 2 ^ 53, -1); (2 ^ 53 - 1, 2 ^ 53 - 1); (5527939700884757, 8944394323791464);
      (8944394323791464, 14472334024676220); (23, 1124000727777607680000);
      (3, 2 ^ 53 - 1); (2 ^ 53 + 2, 2 ^ 53 + 2); (2 ^ 1023, 2 ^ 1023); (2 ^ 1023, 2);
      (- 2 ^ 1023, 2 ^ 1023); (- 2 ^ 1023, 2) ] in
  let of_integer := λ z, binary_normalize 53 1024 z 0 false in
  let finite := λ x, match x with Double.Finite z => Some z | _ => None end in
  (λ p, (double_value (SFadd 53 1024 (of_integer p.1) (of_integer p.2)),
         double_value (SFmul 53 1024 (of_integer p.1) (of_integer p.2)))) <$> tested
  = (λ p, (finite (Double.add (Double.Finite p.1) (Double.Finite p.2)),
           finite (Double.mul (Double.Finite p.1) (Double.Finite p.2)))) <$> tested.
Proof. vm_compute. reflexivity. Qed.

(** ** Developers *)

Section DeveloperRuns.

Variable C : DeveloperClass.

(** A property of the object that both methods keep holds after every
    sequence of calls. *)
Lemma run_calls_invariant (P : C → Prop) :
  (∀ d out, P d → P (Js.call (dev_drinkCoffee C) d out).1) →
  (∀ d out, P d → P (Js.call (dev_code C) d out).1) →
  ∀ calls d out, P d → P (run_calls C calls d out).2.1.
Proof.
  intros Hdrink Hcode calls. induction calls as [|c calls IH]; intros d out Hd.
  - exact Hd.
  - destruct c; simpl.
    + specialize (Hdrink d out Hd).
      destruct (Js.call (dev_drinkCoffee C) d out) as [d' out']. by apply IH.
    + specialize (Hcode d out Hd).
      destruct (Js.call (dev_code C) d out) as [d' out'].
      specialize (IH d' out' Hcode).
      by destruct (run_calls C calls d' out') as [bs final].
Qed.

(** The account of the caffeine: [inc] per coffee, 10 less per coding
    branch taken. *)
Variable inc : Z.

Hypothesis drink_level : ∀ d out,
  dev_level C (Js.call (dev_drinkCoffee C) d out).1 = dev_level C d + inc.

Hypothesis code_level : ∀ d out,
  dev_level C (Js.call (dev_code C) d out).1 =
  if dev_can_code C d then dev_level C d - 10 else dev_level C d.

Lemma run_calls_account calls d out :
  dev_level C (run_calls C calls d out).2.1 =
  dev_level C d + inc * coffees calls - 10 * codings (run_calls C calls d out).1.
Proof.
  revert d out. induction calls as [|c calls IH]; intros d out.
  - unfold coffees, codings. simpl. lia.
  - destruct c; simpl.
    + specialize (drink_level d out).
      destruct (Js.call (dev_drinkCoffee C) d out) as [d' out'].
      rewrite IH. simpl in drink_level. rewrite drink_level.
      unfold coffees. rewrite filter_cons_True by done. simpl length. lia.
    + specialize (code_level d out).
      destruct (Js.call (dev_code C) d out) as [d' out'].
      specialize (IH d' out').
      destruct (run_calls C calls d' out') as [bs final]. simpl in *.
      rewrite IH, code_level. unfold coffees, codings.
      rewrite (filter_cons_False _ Code) by done.
      destruct (dev_can_code C d).
      * rewrite filter_cons_True by done. simpl length. lia.
      * rewrite filter_cons_False by done. lia.
Qed.

Lemma behaviour_account name calls :
  dev_level C (dev_new C name) = 0 →
  (behaviour C name calls).1 = inc * coffees calls - 10 * codings (behaviour C name calls).2.
Proof.
  intros Hnew. unfold behaviour.
  pose proof (run_calls_account calls (dev_new C name) []) as H.
  destruct (run_calls C calls (dev_new C name) []) as [bs [d out]].
  simpl in *. lia.
Qed.

End DeveloperRuns.

(** The steps of the three versions. *)

Lemma OopTs_drink_level d out :
  OopTs.caffeineLevels (Js.call OopTs.drinkCoffee d out).1 = OopTs.caffeineLevels d + 2.
Proof. reflexivity. Qed.

Lemma OopTs_code_level d out :
  OopTs.caffeineLevels (Js.call OopTs.code d out).1 =
  if OopTs.can_code d then OopTs.caffeineLevels d - 10 else OopTs.caffeineLevels d.
Proof.
  unfold Js.call, OopTs.code, mbind, Method_bind, Js.bind, Js.get_this; simpl.
  by destruct (OopTs.can_code d).
Qed.

Lemma OopGuide_drink_level d out :
  OopGuide.caffeineLevel (Js.call OopGuide.drinkCoffee d out).1 = OopGuide.caffeineLevel d + 20.
Proof. reflexivity. Qed.

Lemma OopGuide_code_level d out :
  OopGuide.caffeineLevel (Js.call OopGuide.code d out).1 =
  if OopGuide.can_code d then OopGuide.caffeineLevel d - 10 else OopGuide.caffeineLevel d.
Proof.
  unfold Js.call, OopGuide.code, mbind, Method_bind, Js.bind, Js.get_this; simpl.
  by destruct (OopGuide.can_code d).
Qed.

Lemma OopGuideCopy_drink_level d out :
  OopGuideCopy.caffeineLevel (Js.call OopGuideCopy.drinkCoffee d out).1 =
  OopGuideCopy.caffeineLevel d + 20.
Proof. reflexivity. Qed.

Lemma OopGuideCopy_code_level d out :
  OopGuideCopy.caffeineLevel (Js.call OopGuideCopy.code d out).1 =
  if OopGuideCopy.can_code d then OopGuideCopy.caffeineLevel d - 10
  else OopGuideCopy.caffeineLevel d.
Proof.
  unfold Js.call, OopGuideCopy.code, mbind, Method_bind, Js.bind, Js.get_this; simpl.
  by destruct (OopGuideCopy.can_code d).
Qed.

Lemma tens_drink level : tens level → tens (level + 20).
Proof.
  intros [Hpos [k ->]]. split; [lia|]. exists (k + 2). lia.
Qed.

Lemma tens_code level : tens level → 0 < level → tens (level - 10).
Proof.
  intros [Hpos [k ->]] Hlt. split; [lia|]. exists (k - 1). lia.
Qed.

(** Two versions whose objects stay related take the same branches. *)
Section Simulation.

Variables C1 C2 : DeveloperClass.
Variable R : C1 → C2 → Prop.
Variable with_coffee : bool.

Hypothesis sim_drink : with_coffee = true → ∀ d1 d2 out1 out2, R d1 d2 →
  R (Js.call (dev_drinkCoffee C1) d1 out1).1 (Js.call (dev_drinkCoffee C2) d2 out2).1.

Hypothesis sim_code : ∀ d1 d2 out1 out2, R d1 d2 →
  R (Js.call (dev_code C1) d1 out1).1 (Js.call (dev_code C2) d2 out2).1.

Hypothesis sim_can_code : ∀ d1 d2, R d1 d2 → dev_can_code C1 d1 = dev_can_code C2 d2.

Lemma run_calls_simulation calls d1 d2 out1 out2 :
  (with_coffee = false → DrinkCoffee ∉ calls) →
  R d1 d2 →
  (run_calls C1 calls d1 out1).1 = (run_calls C2 calls d2 out2).1
  ∧ R (run_calls C1 calls d1 out1).2.1 (run_calls C2 calls d2 out2).2.1.
Proof.
  revert d1 d2 out1 out2.
  induction calls as [|c calls IH]; intros d1 d2 out1 out2 Hcalls HR.
  - by split.
  - assert (Hrest : with_coffee = false → DrinkCoffee ∉ calls).
    { intros Hw Hin. apply (Hcalls Hw). by right. }
    destruct c; simpl.
    + assert (Hw : with_coffee = true).
      { destruct with_coffee; [done|]. exfalso. apply Hcalls; [done | by left]. }
      specialize (sim_drink Hw d1 d2 out1 out2 HR).
      destruct (Js.call (dev_drinkCoffee C1) d1 out1) as [d1' out1'].
      destruct (Js.call (dev_drinkCoffee C2) d2 out2) as [d2' out2'].
      by apply IH.
    + specialize (sim_code d1 d2 out1 out2 HR).
      rewrite (sim_can_code d1 d2 HR).
      destruct (Js.call (dev_code C1) d1 out1) as [d1' out1'].
      destruct (Js.call (dev_code C2) d2 out2) as [d2' out2'].
      specialize (IH d1' d2' out1' out2' Hrest sim_code).
      destruct (run_calls C1 calls d1' out1') as [bs1 final1].
      destruct (run_calls C2 calls d2' out2') as [bs2 final2].
      simpl in *. destruct IH as [-> IH]. by split.
Qed.

Lemma behaviour_simulation name calls :
  (with_coffee = false → DrinkCoffee ∉ calls) →
  R (dev_new C1 name) (dev_new C2 name) →
  (behaviour C1 name calls).2 = (behaviour C2 name calls).2
  ∧ ∃ d1 d2, R d1 d2 ∧ (behaviour C1 name calls).1 = dev_level C1 d1
             ∧ (behaviour C2 name calls).1 = dev_level C2 d2.
Proof.
  intros Hcalls HR. unfold behaviour.
  pose proof (run_calls_simulation calls _ _ [] [] Hcalls HR) as [Hbs Hfinal].
  destruct (run_calls C1 calls (dev_new C1 name) []) as [bs1 [d1 o1]].
  destruct (run_calls C2 calls (dev_new C2 name) []) as [bs2 [d2 o2]].
  simpl in *. split; [done|]. by exists d1, d2.
Qed.

End Simulation.

Lemma coffees_zero calls : coffees calls = 0 → DrinkCoffee ∉ calls.
Proof.
  unfold coffees. intros H Hin.
  assert (Hmem : DrinkCoffee ∈ filter (λ c, c = DrinkCoffee) calls)
    by (by apply list_elem_of_filter).
  destruct (filter (λ c, c = DrinkCoffee) calls); [by apply elem_of_nil in Hmem|].
  simpl in H. lia.
Qed.

(** Exposes the methods behind the fields of a class record. *)
Ltac open_class :=
  cbn beta iota delta [dev dev_new dev_level dev_drinkCoffee dev_can_code dev_code
       OopTs.Developer_class OopGuide.Developer_class OopGuideCopy.Developer_class] in *.

(** C6: the demo of the guide's [Developer] prints the two lines of its
    comments, in that order and nothing else: after [drinkCoffee] the
    level is 20, and [code] takes the coding branch. *)
Theorem guide_demo_prints_narrated_lines :
  OopGuide.demo.2 = ["Alice drinks coffee. Caffeine level: 20";
                     "Alice is coding like a machine! 💻"]
  ∧ OopGuide.can_code (Js.call OopGuide.drinkCoffee (OopGuide.new "Alice") []).1 = true.
Proof. split; reflexivity. Qed.

(** C9: from a fresh object, after every finite sequence of [drinkCoffee]
    and [code] calls the caffeine level is at least 0, in oop.ts and in
    the guide. *)
Theorem caffeine_never_negative (name : string) (calls : list Call) :
  0 ≤ (behaviour OopTs.Developer_class name calls).1
  ∧ 0 ≤ (behaviour OopGuide.Developer_class name calls).1.
Proof.
  split; unfold behaviour.
  - pose proof (run_calls_invariant OopTs.Developer_class
                  (λ d, 0 ≤ OopTs.caffeineLevels d)) as Hinv.
    open_class.
    assert (H : 0 ≤ OopTs.caffeineLevels
                      (run_calls OopTs.Developer_class calls (OopTs.new name) []).2.1).
    { apply Hinv; [| |done].
      - intros d out Hd. rewrite OopTs_drink_level. lia.
      - intros d out Hd. rewrite OopTs_code_level. unfold OopTs.can_code.
        destruct (Z.ltb_spec 10 (OopTs.caffeineLevels d)); lia. }
    by destruct (run_calls OopTs.Developer_class calls (OopTs.new name) [])
      as [bs [d out]].
  - pose proof (run_calls_invariant OopGuide.Developer_class
                  (λ d, tens (OopGuide.caffeineLevel d))) as Hinv.
    open_class.
    assert (H : tens (OopGuide.caffeineLevel
                      (run_calls OopGuide.Developer_class calls (OopGuide.new name) []).2.1)).
    { apply Hinv.
      - intros d out Hd. rewrite OopGuide_drink_level. by apply tens_drink.
      - intros d out Hd. rewrite OopGuide_code_level. unfold OopGuide.can_code.
        destruct (Z.ltb_spec 0 (OopGuide.caffeineLevel d)); [by apply tens_code | done].
      - split; [done | by exists 0]. }
    destruct (run_calls OopGuide.Developer_class calls (OopGuide.new name) [])
      as [bs [d out]].
    by destruct H.
Qed.

(** C2, as the code has it: the two copies of the guide's [Developer]
    behave alike on every sequence of calls; the [Developer] of oop.ts
    reaches the same level with the same branches as the guide's exactly
    on the sequences that contain no [drinkCoffee]. *)
Theorem developer_versions_compared (name : string) (calls : list Call) :
  behaviour OopGuide.Developer_class name calls
  = behaviour OopGuideCopy.Developer_class name calls
  ∧ (behaviour OopTs.Developer_class name calls
     = behaviour OopGuide.Developer_class name calls
     ↔ DrinkCoffee ∉ calls).
Proof.
  split; [|split].
  - destruct (behaviour_simulation OopGuide.Developer_class OopGuideCopy.Developer_class
                (λ d1 d2, OopGuide.caffeineLevel d1 = OopGuideCopy.caffeineLevel d2)
                true) with (name := name) (calls := calls)
      as [Hbs (d1 & d2 & HR & H1 & H2)]; open_class; try done.
    + intros _ d1 d2 out1 out2 HR.
      rewrite OopGuide_drink_level, OopGuideCopy_drink_level. lia.
    + intros d1 d2 out1 out2 HR.
      rewrite OopGuide_code_level, OopGuideCopy_code_level.
      unfold OopGuide.can_code, OopGuideCopy.can_code. rewrite HR.
      by destruct (0 <? OopGuideCopy.caffeineLevel d2).
    + intros d1 d2 HR. unfold OopGuide.can_code, OopGuideCopy.can_code. by rewrite HR.
    + destruct (behaviour OopGuide.Developer_class name calls) as [l1 bs1].
      destruct (behaviour OopGuideCopy.Developer_class name calls) as [l2 bs2].
      simpl in *. congruence.
  - intros Heq. apply coffees_zero.
    pose proof (behaviour_account OopTs.Developer_class 2
                  OopTs_drink_level OopTs_code_level name calls eq_refl) as Hts.
    pose proof (behaviour_account OopGuide.Developer_class 20
                  OopGuide_drink_level OopGuide_code_level name calls eq_refl) as Hg.
    rewrite Heq in Hts. lia.
  - intros Hno.
    destruct (behaviour_simulation OopTs.Developer_class OopGuide.Developer_class
                (λ d1 d2, OopTs.caffeineLevels d1 = 0 ∧ OopGuide.caffeineLevel d2 = 0)
                false) with (name := name) (calls := calls)
      as [Hbs (d1 & d2 & [HR1 HR2] & H1 & H2)]; open_class; try done.
    + intros d1 d2 out1 out2 [HR1 HR2].
      rewrite OopTs_code_level, OopGuide_code_level.
      unfold OopTs.can_code, OopGuide.can_code. by rewrite HR1, HR2.
    + intros d1 d2 [HR1 HR2]. unfold OopTs.can_code, OopGuide.can_code.
      by rewrite HR1, HR2.
    + destruct (behaviour OopTs.Developer_class name calls) as [l1 bs1].
      destruct (behaviour OopGuide.Developer_class name calls) as [l2 bs2].
      simpl in *. congruence.
Qed.

(** C2 as stated fails: after one coffee and one [code] call the
    developer of oop.ts is at level 2 and still needs coffee, the guide's
    is at level 10 and has been coding. *)
Lemma developer_versions_differ :
  behaviour OopTs.Developer_class "Dan" [DrinkCoffee; Code] = (2, [false])
  ∧ behaviour OopGuide.Developer_class "Dan" [DrinkCoffee; Code] = (10, [true])
  ∧ behaviour OopTs.Developer_class "Dan" [DrinkCoffee; Code]
    ≠ behaviour OopGuide.Developer_class "Dan" [DrinkCoffee; Code].
Proof. split; [|split]; [reflexivity | reflexivity | discriminate]. Qed.

(** ** GitRepository *)

Lemma OopTs_auth_line_not_pushed message n :
  "Authenticating using secret token...." ≠ OopTs.pushed_line message n.
Proof. discriminate. Qed.

Lemma OopGuide_auth_line_not_pushed message n :
  "🔐 Authenticating with secret token..." ≠ OopGuide.pushed_line message n.
Proof. discriminate. Qed.

Lemma OopTs_push_cases (r : OopTs.GitRepository) (message : string) (out : Js.Console) :
  match OopTs.secretToken r with
  | EmptyString =>
      Js.call (OopTs.push message) r out
      = (r, out ++ ["Authenticating using secret token...."])
  | String _ _ =>
      Js.call (OopTs.push message) r out
      = ({| OopTs.secretToken := OopTs.secretToken r; OopTs.repoName := OopTs.repoName r;
            OopTs.commits := Double.increment (OopTs.commits r) |},
         out ++ ["Authenticating using secret token....";
                 OopTs.pushed_line message (Double.increment (OopTs.commits r))])
  end.
Proof.
  destruct r as [token repo n]. destruct token as [|c token]; simpl.
  - reflexivity.
  - unfold Js.call, OopTs.push, OopTs.authenticate, mbind, mret, Method_bind, Method_ret,
      Js.bind, Js.ret, Js.console_log, Js.get_this, Js.set_this. simpl.
    by rewrite <- app_assoc.
Qed.

Lemma OopGuide_push_cases (r : OopGuide.GitRepository) (message : string) (out : Js.Console) :
  match OopGuide.secretToken r with
  | EmptyString =>
      Js.call (OopGuide.push message) r out
      = (r, out ++ ["🔐 Authenticating with secret token..."])
  | String _ _ =>
      Js.call (OopGuide.push message) r out
      = ({| OopGuide.secretToken := OopGuide.secretToken r;
            OopGuide.repoName := OopGuide.repoName r;
            OopGuide.commits := OopGuide.commits r + 1 |},
         out ++ ["🔐 Authenticating with secret token...";
                 OopGuide.pushed_line message (OopGuide.commits r + 1)])
  end.
Proof.
  destruct r as [token repo n]. destruct token as [|c token]; simpl.
  - reflexivity.
  - unfold Js.call, OopGuide.push, OopGuide.authenticate, mbind, mret, Method_bind,
      Method_ret, Js.bind, Js.ret, Js.console_log, Js.get_this, Js.set_this. simpl.
    by rewrite <- app_assoc.
Qed.

(** C3, as the code has it: in the guide, and in oop.ts when [commits]
    is an integer from -2^53 to 2^53 - 1, [push(message)] on a
    repository with a non-empty [secretToken] adds one to [commits],
    keeps the other fields and prints the authentication line followed
    by the pushed line with the new count; with an empty [secretToken]
    it leaves the repository as it is and prints the authentication
    line only, which is not a pushed line. *)
Theorem push_commits_iff_token_nonempty :
  (∀ (r : OopTs.GitRepository) (message : string) (out : Js.Console),
     match OopTs.secretToken r with
     | EmptyString =>
         Js.call (OopTs.push message) r out
         = (r, out ++ ["Authenticating using secret token...."])
         ∧ ∀ m n, "Authenticating using secret token...." ≠ OopTs.pushed_line m n
     | String _ _ =>
         - 2 ^ 53 ≤ OopTs.commits r < 2 ^ 53 →
         Js.call (OopTs.push message) r out
         = ({| OopTs.secretToken := OopTs.secretToken r; OopTs.repoName := OopTs.repoName r;
               OopTs.commits := OopTs.commits r + 1 |},
            out ++ ["Authenticating using secret token....";
                    OopTs.pushed_line message (OopTs.commits r + 1)])
     end)
  ∧ (∀ (r : OopGuide.GitRepository) (message : string) (out : Js.Console),
     match OopGuide.secretToken r with
     | EmptyString =>
         Js.call (OopGuide.push message) r out
         = (r, out ++ ["🔐 Authenticating with secret token..."])
         ∧ ∀ m n, "🔐 Authenticating with secret token..." ≠ OopGuide.pushed_line m n
     | String _ _ =>
         Js.call (OopGuide.push message) r out
         = ({| OopGuide.secretToken := OopGuide.secretToken r;
               OopGuide.repoName := OopGuide.repoName r;
               OopGuide.commits := OopGuide.commits r + 1 |},
            out ++ ["🔐 Authenticating with secret token...";
                    OopGuide.pushed_line message (OopGuide.commits r + 1)])
     end).
Proof.
  split; intros r message out.
  - pose proof (OopTs_push_cases r message out) as H.
    destruct (OopTs.secretToken r).
    + split; auto using OopTs_auth_line_not_pushed.
    + intros Hsafe. by rewrite Double_increment_safe in H.
  - pose proof (OopGuide_push_cases r message out) as H.
    destruct (OopGuide.secretToken r); [split|]; auto using OopGuide_auth_line_not_pushed.
Qed.

(** The repository of oop.ts, [new GitRepository('my-ts-app', ...)], and
    its first push. *)
Lemma push_commits_first_push :
  let r := OopTs.new_repo "my-ts-app" "1234rtfgvdhwqmjbxc" in
  - 2 ^ 53 ≤ OopTs.commits r < 2 ^ 53
  ∧ Js.call (OopTs.push "Fixed the bug that only happens on fridays") r []
    = ({| OopTs.secretToken := "1234rtfgvdhwqmjbxc"; OopTs.repoName := "my-ts-app";
          OopTs.commits := 1 |},
       ["Authenticating using secret token....";
        OopTs.pushed_line "Fixed the bug that only happens on fridays" 1]).
Proof.
  intros r.
  assert (Hsafe : - 2 ^ 53 ≤ OopTs.commits r < 2 ^ 53) by (simpl; lia).
  split; [exact Hsafe|].
  exact (proj1 push_commits_iff_token_nonempty r
           "Fixed the bug that only happens on fridays" [] Hsafe).
Defined.

(** C3 as stated fails in oop.ts, where [commits] is public: after
    [myRepo.commits = 2 ** 53], a push with a non-empty token prints the
    pushed line and leaves [commits] at 2^53, which is not one more. *)
Lemma push_does_not_count_past_2_53 :
  let r := {| OopTs.secretToken := "1234rtfgvdhwqmjbxc"; OopTs.repoName := "my-ts-app";
              OopTs.commits := 2 ^ 53 |} in
  Js.call (OopTs.push "one more") r []
  = (r, ["Authenticating using secret token....";
         OopTs.pushed_line "one more" (2 ^ 53)])
  ∧ OopTs.commits (Js.call (OopTs.push "one more") r []).1 ≠ OopTs.commits r + 1.
Proof.
  cbv zeta. split.
  - reflexivity.
  - vm_compute. discriminate.
Qed.

Example OopGuide_push_demo :
  (Js.call (OopGuide.push "Fixed the bug that only happens on Fridays")
     (OopGuide.new_repo "my-awesome-app" "ghp_secret123") []).2
  = ["🔐 Authenticating with secret token...";
     "✅ Pushed: " +:+ Js.dquote +:+ "Fixed the bug that only happens on Fridays"
       +:+ Js.dquote +:+ " (Total commits: 1)"].
Proof. reflexivity. Qed.

(** ** DataStorage *)

Section DataStorageFacts.

Import Generics.

Context {T : Type}.
Variable strict_eq : T → T → bool.

Implicit Types (s : @State T) (h : gmap loc (list T)) (x : T).

Lemma items_read s : items s = read (data s.1) s.2.
Proof.
  destruct s as [this h]. unfold items, getItems. simpl.
  unfold read at 1. by rewrite lookup_insert_eq.
Qed.

Lemma getItems_read s :
  read (getItems s).1 (getItems s).2.2 = read (data s.1) s.2.
Proof.
  destruct s as [this h]. simpl. unfold read at 1. by rewrite lookup_insert_eq.
Qed.

Lemma items_new h : items (new h) = [].
Proof. rewrite items_read. unfold new. simpl. unfold read. by rewrite lookup_insert_eq. Qed.

Lemma items_addItem x s : items (addItem x s) = items s ++ [x].
Proof.
  rewrite !items_read. destruct s as [this h]. simpl.
  unfold read at 1. by rewrite lookup_insert_eq.
Qed.

Lemma items_removeItem x s :
  items (removeItem strict_eq x s) = List.filter (λ i, negb (strict_eq i x)) (items s).
Proof.
  rewrite !items_read. destruct s as [this h]. simpl.
  unfold read at 1. by rewrite lookup_insert_eq.
Qed.

Lemma wf_new h : wf (new h).
Proof. unfold wf, new. simpl. rewrite dom_insert_L. set_solver. Qed.

Lemma wf_addItem x s : wf s → wf (addItem x s).
Proof. destruct s as [this h]. unfold wf. simpl. rewrite dom_insert_L. set_solver. Qed.

Lemma wf_removeItem x s : wf (removeItem strict_eq x s).
Proof. destruct s as [this h]. unfold wf. simpl. rewrite dom_insert_L. set_solver. Qed.

(** Filtering out [x] from a list without [x], extended by [x]. *)
Lemma filter_out_added x (l : list T) :
  strict_eq x x = true →
  (∀ i, i ∈ l → strict_eq i x = false) →
  List.filter (λ i, negb (strict_eq i x)) (l ++ [x]) = l.
Proof.
  intros Hself Hl. induction l as [|a l IH]; simpl.
  - by rewrite Hself.
  - rewrite (Hl a) by left. simpl. f_equal. apply IH.
    intros i Hi. apply Hl. by right.
Qed.

Lemma filter_out_all x (l : list T) i :
  i ∈ List.filter (λ i, negb (strict_eq i x)) l → strict_eq i x = false.
Proof.
  rewrite list_elem_of_In, filter_In. intros [_ H]. by apply negb_true_iff.
Qed.

Lemma agree_off_read r s s' : agree_off r s s' → read (data s.1) s.2 = read (data s'.1) s'.2.
Proof.
  intros (Hthis & Hne & _ & _ & Hl). rewrite <- Hthis. unfold read. by rewrite Hl.
Qed.

Lemma agree_off_insert r s s' k xs :
  k ≠ r → agree_off r s s' →
  agree_off r ({| data := k |}, <[k := xs]> s.2) ({| data := k |}, <[k := xs]> s'.2).
Proof.
  intros Hk (Hthis & Hne & Hr & Hdom & Hl). repeat split; simpl.
  - done.
  - rewrite dom_insert_L. apply elem_of_union. by right.
  - rewrite !dom_insert_L. congruence.
  - intros l Hlr. destruct (decide (k = l)) as [->|Hkl].
    + by rewrite !lookup_insert_eq.
    + rewrite !lookup_insert_ne by done. by apply Hl.
Qed.

Lemma agree_off_fresh r s s' : agree_off r s s' →
  fresh (dom s.2) = fresh (dom s'.2) ∧ fresh (dom s.2) ≠ r.
Proof.
  intros (_ & _ & Hr & Hdom & _). split; [by rewrite Hdom|].
  intros <-. by apply is_fresh in Hr.
Qed.

Lemma agree_off_addItem r x s s' :
  agree_off r s s' → agree_off r (addItem x s) (addItem x s').
Proof.
  intros H. pose proof (agree_off_read _ _ _ H) as Hread.
  destruct H as (Hthis & Hne & Hr & Hdom & Hl).
  destruct s as [this h], s' as [this' h']. simpl in *. subst this'.
  destruct this as [k]. simpl in *. rewrite Hread.
  apply (agree_off_insert r ({| data := k |}, h) ({| data := k |}, h') k); [done|].
  by repeat split.
Qed.

Lemma agree_off_removeItem r x s s' :
  agree_off r s s' → agree_off r (removeItem strict_eq x s) (removeItem strict_eq x s').
Proof.
  intros H. pose proof (agree_off_read _ _ _ H) as Hread.
  pose proof (agree_off_fresh _ _ _ H) as [Hfresh Hfr].
  destruct s as [this h], s' as [this' h']. simpl in *.
  rewrite <- Hfresh, <- Hread.
  by apply (agree_off_insert r (this, h) (this', h')).
Qed.

Lemma agree_off_getItems r s s' :
  agree_off r s s' →
  agree_off r (getItems s).2 (getItems s').2
  ∧ read (getItems s).1 (getItems s).2.2 = read (getItems s').1 (getItems s').2.2.
Proof.
  intros H. pose proof (agree_off_read _ _ _ H) as Hread.
  pose proof (agree_off_fresh _ _ _ H) as [Hfresh Hfr].
  pose proof (agree_off_insert r s s' (fresh (dom s.2)) (read (data s.1) s.2) Hfr H)
    as (_ & _ & Hr' & Hdom' & Hl').
  destruct H as (Hthis & Hne & Hr & Hdom & Hl).
  destruct s as [this h], s' as [this' h']. simpl in *.
  rewrite <- Hfresh, <- Hread. split.
  - by repeat split.
  - unfold read. by rewrite !lookup_insert_eq.
Qed.

Lemma run_agree_off r ops s s' :
  agree_off r s s' → run strict_eq ops s = run strict_eq ops s'.
Proof.
  revert s s'. induction ops as [|op ops IH]; intros s s' H; [done|].
  destruct op as [x|x|]; simpl.
  - by apply IH, agree_off_addItem.
  - by apply IH, agree_off_removeItem.
  - destruct (agree_off_getItems r s s' H) as [Hnext Hsame].
    destruct (getItems s) as [l1 s1], (getItems s') as [l2 s2]. simpl in *.
    f_equal; [done | by apply IH].
Qed.

End DataStorageFacts.

(** C4, as the code has it: when [x] is strictly equal to itself and to
    no element of the storage, [addItem(x)] followed by [removeItem(x)]
    gives [getItems()] its previous value back; and after
    [removeItem(x)], on any state, no element that [getItems()] returns
    is strictly equal to [x]. *)
Theorem add_then_remove_restores {T : Type} (strict_eq : T → T → bool)
    (s : @Generics.State T) (x : T) :
  (strict_eq x x = true →
   (∀ i, i ∈ Generics.items s → strict_eq i x = false) →
   Generics.items (Generics.removeItem strict_eq x (Generics.addItem x s))
   = Generics.items s)
  ∧ (∀ i, i ∈ Generics.items (Generics.removeItem strict_eq x s) → strict_eq i x = false).
Proof.
  split.
  - intros Hself Hnone. rewrite items_removeItem, items_addItem.
    by apply filter_out_added.
  - intros i. rewrite items_removeItem. apply filter_out_all.
Qed.

(** The usage of the guide: a storage of strings with "Hello" in it, to
    which "World" is added and removed again. *)
Lemma add_then_remove_restores_strings :
  let s := Generics.addItem "Hello" (Generics.new ∅) in
  Generics.strict_eq_string "World" "World" = true
  ∧ (∀ i, i ∈ Generics.items s → Generics.strict_eq_string i "World" = false)
  ∧ Generics.items
      (Generics.removeItem Generics.strict_eq_string "World" (Generics.addItem "World" s))
    = Generics.items s.
Proof.
  assert (Hitems : Generics.items (Generics.addItem "Hello" (Generics.new ∅)) = ["Hello"]).
  { by rewrite items_addItem, items_new. }
  assert (Hnone : ∀ i, i ∈ Generics.items (Generics.addItem "Hello" (Generics.new ∅)) →
                       Generics.strict_eq_string i "World" = false).
  { intros i. rewrite Hitems. intros Hi. apply list_elem_of_singleton in Hi. by subst i. }
  split; [reflexivity|]. split; [exact Hnone|].
  exact (proj1 (add_then_remove_restores Generics.strict_eq_string
                  (Generics.addItem "Hello" (Generics.new ∅)) "World") eq_refl Hnone).
Defined.

(** C4 as stated fails in a [DataStorage<number>]: the empty storage
    holds nothing equal to [NaN], and after [addItem(NaN)] and
    [removeItem(NaN)] it holds [NaN], because [NaN !== NaN]. *)
Lemma nan_is_not_removed :
  let s : @Generics.State Generics.number := Generics.new ∅ in
  (∀ i, i ∈ Generics.items s → Generics.strict_eq_number i Generics.NaN = false)
  ∧ Generics.items s = []
  ∧ Generics.items
      (Generics.removeItem Generics.strict_eq_number Generics.NaN
         (Generics.addItem Generics.NaN s))
    = [Generics.NaN]
  ∧ Generics.items
      (Generics.removeItem Generics.strict_eq_number Generics.NaN
         (Generics.addItem Generics.NaN s))
    ≠ Generics.items s.
Proof.
  cbv zeta.
  assert (Hafter : Generics.items
      (Generics.removeItem Generics.strict_eq_number Generics.NaN
         (Generics.addItem Generics.NaN (Generics.new ∅))) = [Generics.NaN]).
  { rewrite items_removeItem, items_addItem, items_new. reflexivity. }
  split; [|split; [|split]].
  - intros i. rewrite items_new. intros Hi. by apply elem_of_nil in Hi.
  - apply items_new.
  - exact Hafter.
  - rewrite Hafter, items_new. discriminate.
Qed.

(** C10: [getItems] returns an array with the elements of the storage,
    in their order, and leaves the storage and its array as they are;
    two calls in a row return equal lists; the array it returns is not
    the array of the storage, and whatever is written into the returned
    array afterwards, every later sequence of [addItem], [removeItem]
    and [getItems] calls sees the same lists. *)
Theorem getItems_returns_a_copy {T : Type} (strict_eq : T → T → bool)
    (s : @Generics.State T) (Hwf : Generics.wf s) :
  let r := (Generics.getItems s).1 in
  let s1 := (Generics.getItems s).2 in
  s1.1 = s.1
  ∧ Generics.read r s1.2 = Generics.read (Generics.data s.1) s.2
  ∧ Generics.read (Generics.data s1.1) s1.2 = Generics.read (Generics.data s.1) s.2
  ∧ Generics.read (Generics.getItems s1).1 (Generics.getItems s1).2.2 = Generics.read r s1.2
  ∧ r ≠ Generics.data s.1
  ∧ ∀ (xs : list T) (ops : list (@Generics.Op T)),
      Generics.run strict_eq ops (s1.1, Generics.write r xs s1.2)
      = Generics.run strict_eq ops s1.
Proof.
  intros r s1.
  assert (Hcopy : Generics.read r s1.2 = Generics.read (Generics.data s.1) s.2).
  { apply getItems_read. }
  assert (Hagain : Generics.read (Generics.getItems s1).1 (Generics.getItems s1).2.2
                   = Generics.read (Generics.data s1.1) s1.2).
  { apply getItems_read. }
  assert (Hthis : s1.1 = s.1) by (by destruct s).
  rewrite Hthis in Hagain.
  destruct s as [this h]. unfold Generics.wf in Hwf. simpl in Hwf, Hcopy, Hagain |- *.
  assert (Hne : r ≠ Generics.data this).
  { intros Heq. rewrite <- Heq in Hwf. by apply is_fresh in Hwf. }
  assert (Hstored : Generics.read (Generics.data this) s1.2
                    = Generics.read (Generics.data this) h).
  { unfold Generics.read, s1. simpl. by rewrite lookup_insert_ne. }
  split; [done|]. split; [exact Hcopy|]. split; [exact Hstored|]. split.
  { rewrite Hagain, Hcopy. exact Hstored. }
  split; [exact Hne|].
  intros xs ops. apply (run_agree_off strict_eq r).
  unfold Generics.agree_off, Generics.write, s1, r. simpl.
  split; [done|]. split.
  { intros Heq. apply Hne. by rewrite Heq. }
  split.
  { rewrite !dom_insert_L. apply elem_of_union. left. by apply elem_of_singleton. }
  split.
  { rewrite !dom_insert_L. apply set_eq. intros l. rewrite !elem_of_union. tauto. }
  intros l Hl. by rewrite lookup_insert_ne.
Qed.

(** An instance of C10 on the storage of strings of the guide. *)
Lemma getItems_returns_a_copy_strings :
  let s : @Generics.State string := Generics.addItem "Hello" (Generics.new ∅) in
  Generics.wf s
  ∧ Generics.read (Generics.getItems s).1 (Generics.getItems s).2.2 = ["Hello"]
  ∧ ∀ (xs : list string) (ops : list (@Generics.Op string)),
      Generics.run Generics.strict_eq_string ops
        ((Generics.getItems s).2.1, Generics.write (Generics.getItems s).1 xs
                                      (Generics.getItems s).2.2)
      = Generics.run Generics.strict_eq_string ops (Generics.getItems s).2.
Proof.
  cbv zeta.
  assert (Hwf : Generics.wf (Generics.addItem "Hello" (Generics.new (T := string) ∅))).
  { vm_compute. reflexivity. }
  pose proof (getItems_returns_a_copy Generics.strict_eq_string _ Hwf)
    as (_ & Hcopy & _ & _ & _ & Hframe).
  split; [exact Hwf|]. split; [|exact Hframe].
  rewrite Hcopy. vm_compute. reflexivity.
Defined.

(** ** The range iterator *)

Section RangeIterator.

Import Es6Guide.

Lemma next_below (it : RangeIterator) :
  current it < end_ it →
  next it = ({| value := Some (current it); done := false |},
             {| current := Double.increment (current it); end_ := end_ it |}).
Proof. intros H. unfold next. by apply Z.ltb_lt in H as ->. Qed.

Lemma next_done (it : RangeIterator) :
  end_ it ≤ current it → next it = ({| value := None; done := true |}, it).
Proof. intros H. unfold next. by apply Z.ltb_ge in H as ->. Qed.

(** An exhausted iterator stays exhausted. *)
Lemma nexts_done (k : nat) (it : RangeIterator) :
  end_ it ≤ current it → nexts k it = replicate k {| value := None; done := true |}.
Proof.
  intros H. induction k as [|k IH]; [done|].
  simpl. rewrite next_done by done. by rewrite IH.
Qed.

Lemma nexts_range (n k : nat) (start stop : Z) :
  Z.to_nat (stop - start) = n →
  (start < stop → - 2 ^ 53 ≤ start ∧ stop ≤ 2 ^ 53) →
  nexts (n + k) {| current := start; end_ := stop |}
  = ((λ i : nat, {| value := Some (start + Z.of_nat i); done := false |}) <$> seq 0 n)
    ++ replicate k {| value := None; done := true |}.
Proof.
  revert start. induction n as [|n IH]; intros start Hn Hsafe.
  - simpl. apply nexts_done. simpl. lia.
  - change (S n + k)%nat with (S (n + k)). cbn [nexts].
    rewrite next_below by (simpl; lia). cbn [current end_].
    rewrite Double_increment_safe by lia.
    rewrite (IH (start + 1)) by lia.
    cbn [seq fmap list_fmap app]. rewrite Z.add_0_r. f_equal. f_equal.
    rewrite <- seq_shift, <- list_fmap_compose.
    apply list_fmap_ext. intros _ i _. simpl. do 2 f_equal. lia.
Qed.

End RangeIterator.

(** C7, as the code has it: for integers [start] and [end] with
    [start >= end], or with [-2^53 <= start] and [end <= 2^53], the
    first [end - start] calls of [next()] (none when [start >= end])
    return [start], [start + 1], ..., [end - 1] in this order, each with
    [done: false], and every call after them returns [{ done: true }];
    the first call returns [{ done: true }] exactly when
    [start >= end]. *)
Theorem range_iterator_yields_range (start stop : Z) (k : nat) :
  (start < stop → - 2 ^ 53 ≤ start ∧ stop ≤ 2 ^ 53) →
  Es6Guide.nexts (Z.to_nat (stop - start) + k) (Es6Guide.createRangeIterator start stop)
  = ((λ i : nat, {| Es6Guide.value := Some (start + Z.of_nat i); Es6Guide.done := false |})
       <$> seq 0 (Z.to_nat (stop - start)))
    ++ replicate k {| Es6Guide.value := None; Es6Guide.done := true |}
  ∧ ((Es6Guide.next (Es6Guide.createRangeIterator start stop)).1
     = {| Es6Guide.value := None; Es6Guide.done := true |}
     ↔ stop ≤ start).
Proof.
  intros Hsafe. split.
  - by apply nexts_range.
  - unfold Es6Guide.createRangeIterator. split.
    + intros H. destruct (Z.lt_ge_cases start stop) as [Hlt|Hge]; [|lia].
      rewrite next_below in H by done. discriminate.
    + intros H. by rewrite next_done.
Qed.

(** The calls of the guide: [createRangeIterator(1, 4)] and four [next()]. *)
Example range_iterator_1_4 :
  Es6Guide.nexts 4 (Es6Guide.createRangeIterator 1 4)
  = [ {| Es6Guide.value := Some 1; Es6Guide.done := false |};
      {| Es6Guide.value := Some 2; Es6Guide.done := false |};
      {| Es6Guide.value := Some 3; Es6Guide.done := false |};
      {| Es6Guide.value := None; Es6Guide.done := true |} ].
Proof. reflexivity. Qed.

(** C7 on the iterator of the guide. *)
Lemma range_iterator_yields_1_to_3 :
  (1 < 4 → - 2 ^ 53 ≤ 1 ∧ 4 ≤ 2 ^ 53)
  ∧ Es6Guide.nexts (Z.to_nat (4 - 1) + 1) (Es6Guide.createRangeIterator 1 4)
    = ((λ i : nat, {| Es6Guide.value := Some (1 + Z.of_nat i); Es6Guide.done := false |})
         <$> seq 0 (Z.to_nat (4 - 1)))
      ++ replicate 1 {| Es6Guide.value := None; Es6Guide.done := true |}.
Proof.
  assert (Hsafe : 1 < 4 → - 2 ^ 53 ≤ 1 ∧ 4 ≤ 2 ^ 53) by lia.
  split; [exact Hsafe|].
  exact (proj1 (range_iterator_yields_range 1 4 1 Hsafe)).
Defined.

(** C7 as stated fails beyond 2^53: the iterator of
    [createRangeIterator(2 ** 53, 2 ** 53 + 2)] returns 2^53 again and
    again, since [current++] leaves 2^53 where it is, and does not
    report [done]; the claim has 2^53, 2^53 + 1 and then [done]. *)
Lemma range_iterator_stuck_at_2_53 :
  Es6Guide.nexts 3 (Es6Guide.createRangeIterator (2 ^ 53) (2 ^ 53 + 2))
  = [ {| Es6Guide.value := Some (2 ^ 53); Es6Guide.done := false |};
      {| Es6Guide.value := Some (2 ^ 53); Es6Guide.done := false |};
      {| Es6Guide.value := Some (2 ^ 53); Es6Guide.done := false |} ]
  ∧ Es6Guide.nexts 3 (Es6Guide.createRangeIterator (2 ^ 53) (2 ^ 53 + 2))
    ≠ [ {| Es6Guide.value := Some (2 ^ 53); Es6Guide.done := false |};
        {| Es6Guide.value := Some (2 ^ 53 + 1); Es6Guide.done := false |};
        {| Es6Guide.value := None; Es6Guide.done := true |} ]
  ∧ (Es6Guide.next {| Es6Guide.current := 2 ^ 53; Es6Guide.end_ := 2 ^ 53 + 2 |}).2
    = {| Es6Guide.current := 2 ^ 53; Es6Guide.end_ := 2 ^ 53 + 2 |}.
Proof.
  split; [|split].
  - vm_compute. reflexivity.
  - vm_compute. discriminate.
  - vm_compute. reflexivity.
Qed.

(** ** Promises *)

(** C8: [step1()] resolves to 'Step 1 completed'; the promise that feeds
    the last [then] handler resolves to
    'Step 1 completed -> Step 2 completed -> Step 3 completed'; the chain
    prints the three intermediate strings in order, three seconds pass,
    and nothing is printed by the [catch] handler, which is not run. *)
Theorem promise_chain_resolves_as_narrated :
  (Es6Guide.step1 Runtime.start).1 = Async.Fulfilled (Runtime.VStr "Step 1 completed")
  ∧ (Es6Guide.chain_steps Runtime.start).1
    = Async.Fulfilled
        (Runtime.VStr "Step 1 completed -> Step 2 completed -> Step 3 completed")
  ∧ Es6Guide.chain Runtime.start
    = (Async.Fulfilled Runtime.VUndefined,
       {| Runtime.now := 3000;
          Runtime.stdout :=
            [ [Runtime.VStr "Step 1 completed"];
              [Runtime.VStr "Step 1 completed -> Step 2 completed"];
              [Runtime.VStr "Step 1 completed -> Step 2 completed -> Step 3 completed"] ];
          Runtime.stderr := [] |}).
Proof. repeat split. Qed.

(** The chain does not depend on the state of the consoles or of the
    clock when it starts: the [catch] handler adds nothing to the error
    console. *)
Lemma promise_chain_never_catches (w : Runtime.World) :
  Runtime.stderr (Es6Guide.chain w).2 = Runtime.stderr w.
Proof. reflexivity. Qed.

(** ** fetchUser *)

(** [fetchUser] resolves for every argument, with the user whose id is 1. *)
Lemma fetchUser_always_resolves (user_id : Runtime.JsVal) (w : Runtime.World) :
  (Es6Demo.fetchUser user_id w).1
  = Async.Fulfilled (Runtime.VObj [("id", Runtime.VNum 1); ("name", Runtime.VStr "Tiff")]).
Proof. reflexivity. Qed.

(** C1 at the argument of the demo: [fetchUser(24)] resolves with
    [{id: 1, name: 'Tiff'}], one second later, where the narration
    rejects with 'Failed to fetch user'; in the demo the [then] handler
    prints the user and the [catch] handler is not run. *)
Theorem fetchUser_24_resolves :
  (Es6Demo.fetchUser (Runtime.VNum 24) Runtime.start).1
  = Async.Fulfilled (Runtime.VObj [("id", Runtime.VNum 1); ("name", Runtime.VStr "Tiff")])
  ∧ (Es6Demo.fetchUser_narrated (Runtime.VNum 24) Runtime.start).1
    = Async.Rejected (Runtime.VStr "Failed to fetch user")
  ∧ Es6Demo.demo Runtime.start
    = (Async.Fulfilled tt,
       {| Runtime.now := 1000;
          Runtime.stdout :=
            [ [Runtime.VObj [("id", Runtime.VNum 1); ("name", Runtime.VStr "Tiff")]] ];
          Runtime.stderr := [] |}).
Proof. repeat split. Qed.

(** ** DataProcessor *)

Section DataProcessorFacts.

Import Es6Guide.

Variables Params Data : Type.
Variable JSON_stringify : Params → string.
Variable server : list (Request) → Request → Async.Settled Error (Response Data).

Local Abbreviation fetchData := (Es6Guide.fetchData Params Data JSON_stringify server).

(** What a call that is fulfilled leaves behind: the value is in the
    cache under the key of the call, and at most one request was made. *)
Lemma fetchData_fulfilled endpoint params (w w' : Env Data) data :
  fetchData endpoint params w = (Async.Fulfilled data, w') →
  apiUrl Data (this Data w') = apiUrl Data (this Data w)
  ∧ cache Data (this Data w')
    !! ((apiUrl Data (this Data w) +:+ "/" +:+ endpoint) +:+ "-" +:+ JSON_stringify params)
    = Some data
  ∧ (requests Data w' = requests Data w
     ∨ ∃ req, requests Data w' = requests Data w ++ [req]).
Proof.
  unfold Es6Guide.fetchData.
  destruct (cache Data (this Data w) !! _) as [cached|] eqn:Hcache.
  - intros [= <- <-]. split; [done|]. split; [done|]. by left.
  - unfold Async.catch_, mbind, mret, Promise_bind, Promise_ret, Async.then_, fetch.
    destruct (server _ _) as [response|e]; [|discriminate].
    destruct (ok Data response); simpl; [|discriminate].
    destruct (json Data response) as [d|e]; simpl; [|discriminate].
    intros [= <- <-]. simpl. rewrite lookup_insert_eq. eauto.
Qed.

End DataProcessorFacts.

(** C5: when a call [fetchData(endpoint, params)] is fulfilled with
    [data], a second call with the same endpoint and params, made after
    it, is fulfilled with the same [data] and changes nothing: it makes
    no request, so that the two calls together make at most one. *)
Theorem fetchData_second_call_is_cached
    (Params Data : Type) (JSON_stringify : Params → string)
    (server : list Es6Guide.Request → Es6Guide.Request
              → Async.Settled Es6Guide.Error (Es6Guide.Response Data))
    (endpoint : string) (params : Params) (w w' : Es6Guide.Env Data) (data : Data) :
  Es6Guide.fetchData Params Data JSON_stringify server endpoint params w
  = (Async.Fulfilled data, w') →
  Es6Guide.fetchData Params Data JSON_stringify server endpoint params w'
  = (Async.Fulfilled data, w')
  ∧ (length (Es6Guide.requests Data w') ≤ S (length (Es6Guide.requests Data w)))%nat.
Proof.
  intros H.
  destruct (fetchData_fulfilled _ _ _ _ _ _ _ _ _ H) as (Hurl & Hcached & Hreqs).
  split.
  - unfold Es6Guide.fetchData. by rewrite Hurl, Hcached.
  - destruct Hreqs as [->|[req ->]]; [lia|]. rewrite length_app. simpl. lia.
Qed.

(** An instance of C5: a server that answers the first request with the
    user and fails every later one; the second call still returns the
    user, from the cache. *)
Lemma fetchData_second_call_is_cached_users :
  let stringify := λ id : Z, "{id:" +:+ pretty id +:+ "}" in
  let server := λ (history : list Es6Guide.Request) (_ : Es6Guide.Request),
    match history with
    | [] => Async.Fulfilled
              {| Es6Guide.ok := true; Es6Guide.status := 200; Es6Guide.statusText := "OK";
                 Es6Guide.json := Async.Fulfilled "Tiff" |}
    | _ => Async.Rejected {| Es6Guide.message := "network down" |}
    end in
  let w := {| Es6Guide.this := Es6Guide.new_DataProcessor string "https://api.example.com";
              Es6Guide.requests := []; Es6Guide.errors := [] |} in
  let w' := (Es6Guide.fetchData Z string stringify server "users" 1 w).2 in
  Es6Guide.fetchData Z string stringify server "users" 1 w = (Async.Fulfilled "Tiff", w')
  ∧ Es6Guide.fetchData Z string stringify server "users" 1 w' = (Async.Fulfilled "Tiff", w')
  ∧ length (Es6Guide.requests string w') = 1%nat.
Proof.
  intros stringify server w w'.
  split; [reflexivity|]. split; [|reflexivity].
  apply (fetchData_second_call_is_cached Z string stringify server "users" 1 w w' "Tiff").
  reflexivity.
Defined.

(** * Further properties of the snippets *)

(** ** Sequences of pushes *)

(** X1: a repository of oop.ts with a non-empty token counts its pushes
    as long as the count stays an integer that doubles count exactly:
    when [commits] is at least -2^53 and [commits] plus the number of
    messages is at most 2^53, after pushing the messages [commits] has
    grown by their number, the token and the name are what they were,
    and two lines per push were printed; with an empty token the
    repository is unchanged, whatever is pushed, and one line per push
    was printed. *)
Theorem OopTs_push_all_counts (messages : list string) (r : OopTs.GitRepository)
    (out : Js.Console) :
  match OopTs.secretToken r with
  | EmptyString =>
      (OopTs_push_all messages r out).1 = r
      ∧ length (OopTs_push_all messages r out).2 = (length out + length messages)%nat
  | String _ _ =>
      - 2 ^ 53 ≤ OopTs.commits r →
      OopTs.commits r + Z.of_nat (length messages) ≤ 2 ^ 53 →
      (OopTs_push_all messages r out).1
      = {| OopTs.secretToken := OopTs.secretToken r; OopTs.repoName := OopTs.repoName r;
           OopTs.commits := OopTs.commits r + Z.of_nat (length messages) |}
      ∧ length (OopTs_push_all messages r out).2 = (length out + 2 * length messages)%nat
  end.
Proof.
  revert r out. induction messages as [|m messages IH]; intros r out.
  - destruct r as [token repo n]. destruct token; simpl.
    + split; [done | lia].
    + intros _ _. split; [f_equal|]; lia.
  - pose proof (OopTs_push_cases r m out) as Hstep. cbn [OopTs_push_all].
    destruct r as [token repo n].
    destruct token as [|c token];
      cbn [OopTs.secretToken OopTs.repoName OopTs.commits] in *; rewrite Hstep;
      match goal with
      | |- context [OopTs_push_all messages ?R ?O] => specialize (IH R O)
      end;
      cbn [OopTs.secretToken OopTs.repoName OopTs.commits] in IH.
    + destruct IH as [-> ->]. rewrite length_app. simpl length. split; [done | lia].
    + intros Hlow Hhigh. simpl length in Hhigh.
      rewrite Double_increment_safe in IH |- * by lia.
      destruct IH as [-> ->]; [lia | lia |].
      rewrite length_app. simpl length. split; [f_equal|]; lia.
Qed.

(** Two pushes on the repository of oop.ts. *)
Lemma OopTs_push_twice :
  let r := OopTs.new_repo "my-ts-app" "1234rtfgvdhwqmjbxc" in
  - 2 ^ 53 ≤ OopTs.commits r
  ∧ OopTs.commits r + Z.of_nat (length ["first"; "second"]) ≤ 2 ^ 53
  ∧ OopTs.commits (OopTs_push_all ["first"; "second"] r []).1 = 2.
Proof.
  intros r.
  assert (Hlow : - 2 ^ 53 ≤ OopTs.commits r) by (simpl; lia).
  assert (Hhigh : OopTs.commits r + Z.of_nat (length ["first"; "second"]) ≤ 2 ^ 53)
    by (simpl; lia).
  split; [exact Hlow|]. split; [exact Hhigh|].
  by rewrite (proj1 (OopTs_push_all_counts ["first"; "second"] r [] Hlow Hhigh)).
Defined.

(** X2: the same for the repository of the guide. *)
Theorem OopGuide_push_all_counts (messages : list string) (r : OopGuide.GitRepository)
    (out : Js.Console) :
  match OopGuide.secretToken r with
  | EmptyString =>
      (OopGuide_push_all messages r out).1 = r
      ∧ length (OopGuide_push_all messages r out).2 = (length out + length messages)%nat
  | String _ _ =>
      (OopGuide_push_all messages r out).1
      = {| OopGuide.secretToken := OopGuide.secretToken r;
           OopGuide.repoName := OopGuide.repoName r;
           OopGuide.commits := OopGuide.commits r + Z.of_nat (length messages) |}
      ∧ length (OopGuide_push_all messages r out).2
        = (length out + 2 * length messages)%nat
  end.
Proof.
  revert r out. induction messages as [|m messages IH]; intros r out.
  - destruct r as [token repo n]. destruct token; simpl; (split; [|lia]).
    + done.
    + f_equal. lia.
  - pose proof (OopGuide_push_cases r m out) as Hstep. cbn [OopGuide_push_all].
    destruct r as [token repo n].
    destruct token as [|c token];
      cbn [OopGuide.secretToken OopGuide.repoName OopGuide.commits] in *; rewrite Hstep;
      match goal with
      | |- context [OopGuide_push_all messages ?R ?O] => specialize (IH R O)
      end;
      cbn [OopGuide.secretToken OopGuide.repoName OopGuide.commits] in IH;
      destruct IH as [-> ->]; rewrite length_app; simpl length.
    + split; [done | lia].
    + split; [f_equal|]; lia.
Qed.

(** ** What a coffee buys *)

Lemma OopTs_level_positive_kept calls d out :
  0 < OopTs.caffeineLevels d →
  0 < OopTs.caffeineLevels (run_calls OopTs.Developer_class calls d out).2.1.
Proof.
  pose proof (run_calls_invariant OopTs.Developer_class
                (λ d, 0 < OopTs.caffeineLevels d)) as Hinv.
  open_class. apply Hinv.
  - intros d' out' Hd. rewrite OopTs_drink_level. lia.
  - intros d' out' Hd. rewrite OopTs_code_level. unfold OopTs.can_code.
    destruct (Z.ltb_spec 10 (OopTs.caffeineLevels d')); lia.
Qed.

(** Once the developer of oop.ts has been coding, some caffeine is left. *)
Lemma OopTs_level_positive_after_coding calls d out :
  0 ≤ OopTs.caffeineLevels d →
  let '(bs, (d', _)) := run_calls OopTs.Developer_class calls d out in
  0 ≤ OopTs.caffeineLevels d' ∧ (codings bs = 0 ∨ 0 < OopTs.caffeineLevels d').
Proof.
  revert d out. induction calls as [|c calls IH]; intros d out Hd.
  - simpl. split; [done|]. by left.
  - destruct c; cbn [run_calls]; open_class.
    + pose proof (OopTs_drink_level d out) as Hstep.
      destruct (Js.call OopTs.drinkCoffee d out) as [d1 out1]. simpl in Hstep.
      apply IH. lia.
    + pose proof (OopTs_code_level d out) as Hstep.
      pose proof (OopTs_level_positive_kept calls (Js.call OopTs.code d out).1
                    (Js.call OopTs.code d out).2) as Hkept.
      destruct (Js.call OopTs.code d out) as [d1 out1]. simpl in Hstep, Hkept.
      unfold OopTs.can_code in *.
      destruct (Z.ltb_spec 10 (OopTs.caffeineLevels d)) as [Hlt|Hge].
      * assert (Hpos : 0 < OopTs.caffeineLevels d1) by lia.
        specialize (Hkept Hpos).
        destruct (run_calls OopTs.Developer_class calls d1 out1) as [bs [d' out']].
        simpl in Hkept. split; [lia | by right].
      * specialize (IH d1 out1). rewrite Hstep in IH. specialize (IH Hd).
        destruct (run_calls OopTs.Developer_class calls d1 out1) as [bs [d' out']].
        destruct IH as [Hnn Hor]. split; [done|].
        unfold codings in *. by rewrite filter_cons_False.
Qed.

Lemma OopGuide_level_nonneg calls d out :
  tens (OopGuide.caffeineLevel d) →
  0 ≤ OopGuide.caffeineLevel (run_calls OopGuide.Developer_class calls d out).2.1.
Proof.
  intros Hd.
  pose proof (run_calls_invariant OopGuide.Developer_class
                (λ d, tens (OopGuide.caffeineLevel d))) as Hinv.
  open_class.
  assert (Hfinal : tens (OopGuide.caffeineLevel
                     (run_calls OopGuide.Developer_class calls d out).2.1)).
  { apply Hinv; [| |exact Hd].
    - intros d' out' Hd'. rewrite OopGuide_drink_level. by apply tens_drink.
    - intros d' out' Hd'. rewrite OopGuide_code_level. unfold OopGuide.can_code.
      destruct (Z.ltb_spec 0 (OopGuide.caffeineLevel d')); [by apply tens_code | done]. }
  by destruct Hfinal.
Qed.

(** X3: what a coffee buys.  From a fresh developer, in every sequence
    of calls: in oop.ts, if [code] took the coding branch at all, it took
    it fewer than a fifth as many times as coffees were drunk; in the
    guide it took it at most twice as many times as coffees were drunk. *)
Theorem coding_is_paid_in_coffee (name : string) (calls : list Call) :
  (codings (behaviour OopTs.Developer_class name calls).2 = 0
   ∨ 5 * codings (behaviour OopTs.Developer_class name calls).2 < coffees calls)
  ∧ codings (behaviour OopGuide.Developer_class name calls).2 ≤ 2 * coffees calls.
Proof.
  split.
  - pose proof (behaviour_account OopTs.Developer_class 2
                  OopTs_drink_level OopTs_code_level name calls eq_refl) as Hacc.
    pose proof (OopTs_level_positive_after_coding calls (OopTs.new name) []
                  (Z.le_refl 0)) as Hpos.
    unfold behaviour in *. open_class.
    destruct (run_calls OopTs.Developer_class calls (OopTs.new name) [])
      as [bs [d out]].
    simpl in *. destruct Hpos as [_ [Hzero|Hpos]]; [by left | right; lia].
  - pose proof (behaviour_account OopGuide.Developer_class 20
                  OopGuide_drink_level OopGuide_code_level name calls eq_refl) as Hacc.
    pose proof (OopGuide_level_nonneg calls (OopGuide.new name) []) as Hnn.
    unfold behaviour in *. open_class.
    destruct (run_calls OopGuide.Developer_class calls (OopGuide.new name) [])
      as [bs [d out]].
    simpl in *. assert (0 ≤ OopGuide.caffeineLevel d).
    { apply Hnn. split; [done | by exists 0]. }
    lia.
Qed.

(** ** Iterables and generators *)





(** Beyond 2^53 the two differ: the iterator is stuck at 2^53 and the
    spread does not end, [range(2 ** 53, 2 ** 53 + 2)] is
    [[2 ** 53, 2 ** 53]]. *)
Example range_beyond_2_53 :
  Iteration.range (2 ^ 53) (2 ^ 53 + 2) = Some [2 ^ 53; 2 ^ 53]
  ∧ Iteration.spread 1000 {| Iteration.start := 2 ^ 53; Iteration.end_ := 2 ^ 53 + 2 |}
    = None.
Proof. split; vm_compute; reflexivity. Qed.

Lemma fib_SS (k : nat) :
  Iteration.fib (S (S k)) = Iteration.fib (S k) + Iteration.fib k.
Proof. reflexivity. Qed.

Lemma fib_pair_fib (n : nat) :
  Iteration.fib_pair n = (Iteration.fib n, Iteration.fib (S n)).
Proof.
  induction n as [|n IH]; [done|].
  cbn [Iteration.fib_pair]. rewrite IH, (fib_SS n). f_equal. apply Z.add_comm.
Qed.

Lemma fib_grows (n : nat) : 0 ≤ Iteration.fib n ≤ Iteration.fib (S n).
Proof.
  induction n as [|n IH]; [simpl; lia|].
  rewrite (fib_SS n). lia.
Qed.

Lemma fib_monotone (n m : nat) : (n ≤ m)%nat → Iteration.fib n ≤ Iteration.fib m.
Proof.
  induction 1 as [|m Hle IH]; [lia|].
  pose proof (fib_grows m). lia.
Qed.

Lemma fib_pair_fst (n : nat) : (Iteration.fib_pair n).1 = Iteration.fib n.
Proof. by rewrite fib_pair_fib. Qed.

(** The last Fibonacci number below 2^53, and the first above. *)
Lemma fib_78_79 :
  Iteration.fib 78 = 8944394323791464 ∧ Iteration.fib 79 = 14472334024676221.
Proof.
  rewrite <- (fib_pair_fst 78), <- (fib_pair_fst 79).
  split; vm_compute; reflexivity.
Qed.

Lemma fib_safe (k : nat) : (k ≤ 78)%nat → Z.abs (Iteration.fib k) ≤ 2 ^ 53.
Proof.
  intros Hk. pose proof (fib_monotone k 78 Hk) as Hle.
  pose proof (fib_grows k) as [Hnn _]. destruct fib_78_79 as [H78 _].
  rewrite H78 in Hle. lia.
Qed.

Lemma generate_fibonacci_from (n k : nat) :
  (k + n ≤ 78)%nat →
  Iteration.generate Iteration.fibonacci_next n
    (Iteration.FibYielded (Double.Finite (Iteration.fib k))
                          (Double.Finite (Iteration.fib (S k))))
  = (λ i : nat, {| Iteration.value := Some (Double.Finite (Iteration.fib (S k + i)));
                   Iteration.done := false |}) <$> seq 0 n.
Proof.
  revert k. induction n as [|n IH]; intros k Hk; [done|].
  cbn [Iteration.generate Iteration.fibonacci_next Double.add].
  cbn [seq fmap list_fmap]. f_equal.
  - by rewrite Nat.add_0_r.
  - destruct n as [|n]; [done|].
    replace (Iteration.fib k + Iteration.fib (S k)) with (Iteration.fib (S (S k)))
      by (rewrite fib_SS; apply Z.add_comm).
    rewrite Double_of_exact_safe by (apply fib_safe; lia).
    rewrite (IH (S k)) by lia.
    rewrite <- seq_shift, <- list_fmap_compose.
    apply list_fmap_ext. intros _ i _. cbv [compose]. do 4 f_equal. lia.
Qed.

Lemma fibonacci_never_done (n : nat) (g : Iteration.Fibonacci) :
  Forall (λ r, Iteration.done r = false)
    (Iteration.generate Iteration.fibonacci_next n g).
Proof.
  revert g. induction n as [|n IH]; intros g; [constructor|].
  destruct g as [|a b]; cbn [Iteration.generate Iteration.fibonacci_next];
    by constructor.
Qed.

(** X5: the generator [fibonacci] never reports [done]; its first 79
    calls of [next()] yield the Fibonacci numbers F(0), ..., F(78),
    which doubles hold exactly; the 80th yields 14472334024676220, the
    double nearest to F(79) = 14472334024676221. *)
Theorem fibonacci_yields_fib (n : nat) :
  Forall (λ r, Iteration.done r = false)
    (Iteration.generate Iteration.fibonacci_next n Iteration.fibonacci)
  ∧ ((n ≤ 79)%nat →
     Iteration.generate Iteration.fibonacci_next n Iteration.fibonacci
     = (λ i : nat, {| Iteration.value := Some (Double.Finite (Iteration.fib i));
                      Iteration.done := false |}) <$> seq 0 n)
  ∧ Iteration.generate Iteration.fibonacci_next 80 Iteration.fibonacci !! 79%nat
    = Some {| Iteration.value := Some (Double.Finite 14472334024676220);
              Iteration.done := false |}
  ∧ Iteration.fib 79 = 14472334024676221.
Proof.
  split; [apply fibonacci_never_done|]. split; [|split].
  - intros Hn. destruct n as [|n]; [done|].
    cbn [Iteration.generate Iteration.fibonacci Iteration.fibonacci_next].
    change (Iteration.FibYielded (Double.Finite 0) (Double.Finite 1))
      with (Iteration.FibYielded (Double.Finite (Iteration.fib 0))
                                 (Double.Finite (Iteration.fib 1))).
    rewrite (generate_fibonacci_from n 0) by lia.
    cbn [seq fmap list_fmap]. f_equal.
    rewrite <- seq_shift, <- list_fmap_compose. by apply list_fmap_ext.
  - vm_compute. reflexivity.
  - apply fib_78_79.
Qed.

(** The five calls of the guide: 0, 1, 1, 2, 3. *)
Lemma fibonacci_first_five :
  (5 ≤ 79)%nat
  ∧ Iteration.generate Iteration.fibonacci_next 5 Iteration.fibonacci
    = (λ z, {| Iteration.value := Some (Double.Finite z); Iteration.done := false |})
        <$> [0; 1; 1; 2; 3].
Proof.
  assert (H : (5 ≤ 79)%nat) by lia.
  split; [exact H|].
  by rewrite (proj1 (proj2 (fibonacci_yields_fib 5)) H).
Defined.

Lemma iterate_arrayGenerator_from {A} (arr : list A) (i fuel : nat) :
  (length arr - i < fuel)%nat →
  Iteration.iterate Iteration.arrayGenerator_next Iteration.done fuel
    {| Iteration.arr := arr; Iteration.state := Iteration.AtTest i |}
  = Some ((λ x, {| Iteration.value := Some x; Iteration.done := false |}) <$> drop i arr).
Proof.
  revert i. induction fuel as [|fuel IH]; intros i Hfuel; [lia|].
  cbn [Iteration.iterate]. unfold Iteration.arrayGenerator_next.
  cbn [Iteration.state Iteration.arr].
  destruct (arr !! i) as [x|] eqn:Hx.
  - cbn [Iteration.done]. apply lookup_lt_Some in Hx as Hlt.
    rewrite IH by lia. rewrite (drop_S _ _ _ Hx). reflexivity.
  - cbn [Iteration.done]. apply lookup_ge_None in Hx.
    by rewrite drop_ge.
Qed.

Lemma generate_arrayGenerator_returned {A} (arr : list A) (k : nat) :
  Iteration.generate Iteration.arrayGenerator_next k
    {| Iteration.arr := arr; Iteration.state := Iteration.Returned |}
  = replicate k {| Iteration.value := None; Iteration.done := true |}.
Proof. induction k as [|k IH]; [done|]. simpl. by rewrite IH. Qed.

Lemma arrayGenerator_next_element {A} (arr : list A) (i : nat) (x : A) :
  arr !! i = Some x →
  Iteration.arrayGenerator_next
    {| Iteration.arr := arr; Iteration.state := Iteration.AtTest i |}
  = ({| Iteration.value := Some x; Iteration.done := false |},
     {| Iteration.arr := arr; Iteration.state := Iteration.AtTest (S i) |}).
Proof. intros H. unfold Iteration.arrayGenerator_next. simpl. by rewrite H. Qed.

Lemma arrayGenerator_next_end {A} (arr : list A) (i : nat) :
  (length arr ≤ i)%nat →
  Iteration.arrayGenerator_next
    {| Iteration.arr := arr; Iteration.state := Iteration.AtTest i |}
  = ({| Iteration.value := None; Iteration.done := true |},
     {| Iteration.arr := arr; Iteration.state := Iteration.Returned |}).
Proof.
  intros H. unfold Iteration.arrayGenerator_next. simpl.
  by rewrite (proj2 (lookup_ge_None arr i)).
Qed.

Lemma generate_arrayGenerator_from {A} (arr : list A) (m i k : nat) :
  (length arr - i = m)%nat →
  Iteration.generate Iteration.arrayGenerator_next (m + k)
    {| Iteration.arr := arr; Iteration.state := Iteration.AtTest i |}
  = ((λ x, {| Iteration.value := Some x; Iteration.done := false |}) <$> drop i arr)
    ++ replicate k {| Iteration.value := None; Iteration.done := true |}.
Proof.
  revert i. induction m as [|m IH]; intros i Hm.
  - rewrite drop_ge by lia. cbn [fmap list_fmap app Nat.add].
    destruct k as [|k]; [done|].
    cbn [Iteration.generate]. rewrite arrayGenerator_next_end by lia.
    by rewrite generate_arrayGenerator_returned.
  - destruct (arr !! i) as [x|] eqn:Hx;
      [|apply lookup_ge_None in Hx; lia].
    change (S m + k)%nat with (S (m + k)).
    cbn [Iteration.generate]. rewrite (arrayGenerator_next_element arr i x Hx).
    rewrite (IH (S i)) by lia. by rewrite (drop_S _ _ _ Hx).
Qed.

(** X6: the generator [arrayGenerator(arr)] yields the elements of
    [arr], all of them, once each and in order, each with
    [done: false], and every [next()] after them, however many, says
    [done] without a value; so [for...of] over it visits exactly the
    elements of [arr]. *)
Theorem arrayGenerator_yields_array {A : Type} (arr : list A) (k : nat) :
  Iteration.generate Iteration.arrayGenerator_next (length arr + k)
    (Iteration.arrayGenerator arr)
  = ((λ x, {| Iteration.value := Some x; Iteration.done := false |}) <$> arr)
    ++ replicate k {| Iteration.value := None; Iteration.done := true |}
  ∧ Iteration.iterate Iteration.arrayGenerator_next Iteration.done (S (length arr) + k)
      (Iteration.arrayGenerator arr)
    = Some ((λ x, {| Iteration.value := Some x; Iteration.done := false |}) <$> arr).
Proof.
  split.
  - unfold Iteration.arrayGenerator.
    rewrite (generate_arrayGenerator_from arr (length arr) 0 k) by lia.
    by rewrite drop_0.
  - unfold Iteration.arrayGenerator. rewrite iterate_arrayGenerator_from by lia.
    by rewrite drop_0.
Qed.

(** The array of the guide, and two more calls of [next()]. *)
Example arrayGenerator_yields_fruits :
  Iteration.generate Iteration.arrayGenerator_next 5
    (Iteration.arrayGenerator ["apple"; "banana"; "cherry"])
  = [ {| Iteration.value := Some "apple"; Iteration.done := false |};
      {| Iteration.value := Some "banana"; Iteration.done := false |};
      {| Iteration.value := Some "cherry"; Iteration.done := false |};
      {| Iteration.value := None; Iteration.done := true |};
      {| Iteration.value := None; Iteration.done := true |} ].
Proof. reflexivity. Qed.

(** ** Classes of ES6.md *)

Lemma factorial_small (stack : nat) (n : Z) :
  n ≤ 1 → Es6Classes.factorial (S stack) n = Some (Double.Finite 1).
Proof. intros H. simpl. by apply Z.leb_le in H as ->. Qed.

Lemma factorial_step (stack : nat) (n : Z) :
  1 < n →
  Es6Classes.factorial (S stack) n
  = Double.mul (Double.Finite n) <$> Es6Classes.factorial stack (Double.decrement n).
Proof.
  intros H. cbn [Es6Classes.factorial]. apply Z.leb_gt in H as ->.
  by destruct (Es6Classes.factorial stack (Double.decrement n)).
Qed.

(** The factorials up to 22! are doubles. *)
Lemma factorial_of_exact (m : nat) :
  (m ≤ 22)%nat →
  Double.of_exact (Es6Classes.factorial_of m) = Double.Finite (Es6Classes.factorial_of m).
Proof.
  intros Hm.
  do 23 (destruct m as [|m]; [vm_compute; reflexivity|]). lia.
Qed.

Lemma factorial_exact (m stack : nat) :
  (m ≤ 22)%nat → (m ≤ S stack)%nat →
  Es6Classes.factorial (S stack) (Z.of_nat m)
  = Some (Double.Finite (Es6Classes.factorial_of m)).
Proof.
  revert stack. induction m as [|m IH]; intros stack Hm Hstack.
  - by rewrite factorial_small by lia.
  - destruct m as [|m]; [by rewrite factorial_small by lia|].
    rewrite factorial_step by lia.
    unfold Double.decrement. rewrite Double_round_safe by lia.
    replace (Z.of_nat (S (S m)) - 1) with (Z.of_nat (S m)) by lia.
    destruct stack as [|stack]; [lia|].
    rewrite IH by lia. cbn [fmap option_fmap option_map Double.mul].
    change (Z.of_nat (S (S m)) * Es6Classes.factorial_of (S m))
      with (Es6Classes.factorial_of (S (S m))).
    by rewrite factorial_of_exact.
Qed.

Lemma factorial_stack_exceeded (stack : nat) (n : Z) :
  Z.of_nat stack < n → n ≤ 2 ^ 53 → Es6Classes.factorial stack n = None.
Proof.
  revert n. induction stack as [|stack IH]; intros n Hstack Hn; [done|].
  rewrite factorial_step by lia.
  unfold Double.decrement. rewrite Double_round_safe by lia.
  by rewrite IH by lia.
Qed.

(** X7: [MathUtils.factorial(n)] returns 1 for every integer [n <= 1],
    negative ones included, and the factorial of [n], exactly, for
    [2 <= n <= 22], when the call stack has room for [n] nested calls;
    it fails when the stack has room for fewer than [n] (for [n] up to
    2^53).  From 23 on the products are rounded:
    [factorial(23)] is 25852016738884978212864, not
    23! = 25852016738884976640000, and [factorial(171)] is
    [Infinity]. *)
Theorem factorial_is_fact (n : Z) (stack : nat) :
  (n ≤ 22 → (Z.to_nat (n - 1) < stack)%nat →
   Es6Classes.factorial stack n
   = Some (Double.Finite (Es6Classes.factorial_of (Z.to_nat n))))
  ∧ (Z.of_nat stack < n → n ≤ 2 ^ 53 → Es6Classes.factorial stack n = None)
  ∧ Es6Classes.factorial 23 23 = Some (Double.Finite 25852016738884978212864)
  ∧ Es6Classes.factorial_of 23 = 25852016738884976640000
  ∧ Es6Classes.factorial 171 171 = Some Double.PlusInfinity.
Proof.
  split; [|split; [apply factorial_stack_exceeded|]].
  - intros Hn Hstack. destruct stack as [|stack]; [lia|].
    destruct (Z.le_gt_cases n 1) as [Hsmall|Hbig].
    + rewrite factorial_small by done.
      assert (Z.to_nat n = 0%nat ∨ Z.to_nat n = 1%nat) as [-> | ->] by lia; reflexivity.
    + rewrite <- (Z2Nat.id n) at 1 by lia. apply factorial_exact; lia.
  - split; [vm_compute; reflexivity|]. split; vm_compute; reflexivity.
Qed.

(** The call of the guide: [MathUtils.factorial(5)] is 120; with room
    for four nested calls only, it fails. *)
Lemma factorial_5 :
  5 ≤ 22 ∧ (Z.to_nat (5 - 1) < 5)%nat
  ∧ Es6Classes.factorial 5 5 = Some (Double.Finite 120)
  ∧ Z.of_nat 4 < 5 ∧ 5 ≤ 2 ^ 53
  ∧ Es6Classes.factorial 4 5 = None.
Proof.
  assert (H1 : 5 ≤ 22) by lia.
  assert (H2 : (Z.to_nat (5 - 1) < 5)%nat) by (simpl; lia).
  assert (H3 : Z.of_nat 4 < 5) by lia.
  assert (H4 : 5 ≤ 2 ^ 53) by lia.
  split; [exact H1|]. split; [exact H2|]. split.
  - exact (proj1 (factorial_is_fact 5 5) H1 H2).
  - split; [exact H3|]. split; [exact H4|].
    exact (proj1 (proj2 (factorial_is_fact 5 4)) H3 H4).
Defined.

Lemma sum_abs_perm (xs ys : list Z) :
  xs ≡ₚ ys → Es6Classes.sum_abs xs = Es6Classes.sum_abs ys.
Proof. unfold Es6Classes.sum_abs. induction 1; simpl; lia. Qed.

Lemma foldr_add_perm (xs ys : list Z) :
  xs ≡ₚ ys → foldr Z.add 0 xs = foldr Z.add 0 ys.
Proof. induction 1; simpl; lia. Qed.

Lemma add_all_exact (nums : list Z) (acc : Z) :
  Z.abs acc + Es6Classes.sum_abs nums ≤ 2 ^ 53 →
  Es6Classes.add_all Double.add (Double.Finite <$> nums)
    {| Es6Classes.result := Double.Finite acc |}
  = {| Es6Classes.result := Double.Finite (acc + foldr Z.add 0 nums) |}.
Proof.
  revert acc. induction nums as [|num nums IH]; intros acc Hsafe.
  - simpl. by rewrite Z.add_0_r.
  - cbn [fmap list_fmap Es6Classes.add_all foldl].
    change (foldl (λ c x, Es6Classes.add Double.add x c) ?c0 (Double.Finite <$> nums))
      with (Es6Classes.add_all Double.add (Double.Finite <$> nums) c0).
    unfold Es6Classes.add at 1. cbn [Es6Classes.result Double.add].
    unfold Es6Classes.sum_abs in Hsafe. cbn [foldr] in Hsafe.
    fold (Es6Classes.sum_abs nums) in Hsafe.
    assert (0 ≤ Es6Classes.sum_abs nums).
    { clear. unfold Es6Classes.sum_abs. induction nums; simpl; lia. }
    rewrite Double_of_exact_safe by lia.
    rewrite IH by lia. cbn [foldr]. do 2 f_equal. lia.
Qed.

(** X8: two chains [calc.add(n1).add(n2)...] one after the other leave
    a new [Calculator] as the one chain with all the numbers does,
    whatever the numbers.  Over integers whose absolute values sum to
    at most 2^53, [getResult()] after the chain is their sum, whatever
    their order.  Otherwise the order counts: adding 2^53, 1, 1 gives
    2^53 and adding 1, 1, 2^53 gives 2^53 + 2; adding 0.1, 0.2, 0.3
    gives 0.6000000000000001 and adding 0.3, 0.2, 0.1 gives 0.6. *)
Theorem calculator_chain_sums (nums nums' : list Z) :
  (∀ (number : Type) (plus : number → number → number) (zero : number)
     (first more : list number),
     Es6Classes.add_all plus more
       (Es6Classes.add_all plus first (Es6Classes.new_Calculator zero))
     = Es6Classes.add_all plus (first ++ more) (Es6Classes.new_Calculator zero))
  ∧ (Es6Classes.sum_abs nums ≤ 2 ^ 53 →
     Es6Classes.getResult
       (Es6Classes.add_all Double.add (Double.Finite <$> nums)
          (Es6Classes.new_Calculator (Double.Finite 0)))
     = Double.Finite (foldr Z.add 0 nums)
     ∧ (nums ≡ₚ nums' →
        Es6Classes.add_all Double.add (Double.Finite <$> nums')
          (Es6Classes.new_Calculator (Double.Finite 0))
        = Es6Classes.add_all Double.add (Double.Finite <$> nums)
            (Es6Classes.new_Calculator (Double.Finite 0))))
  ∧ Es6Classes.getResult
      (Es6Classes.add_all Double.add (Double.Finite <$> [2 ^ 53; 1; 1])
         (Es6Classes.new_Calculator (Double.Finite 0)))
    = Double.Finite (2 ^ 53)
  ∧ Es6Classes.getResult
      (Es6Classes.add_all Double.add (Double.Finite <$> [1; 1; 2 ^ 53])
         (Es6Classes.new_Calculator (Double.Finite 0)))
    = Double.Finite (2 ^ 53 + 2)
  ∧ Es6Classes.getResult
      (Es6Classes.add_all Es6Classes.double_plus
         [Es6Classes.tenth; Es6Classes.fifth; Es6Classes.three_tenths]
         (Es6Classes.new_Calculator Es6Classes.double_zero))
    = S754_finite false 5404319552844596 (-53)
  ∧ Es6Classes.getResult
      (Es6Classes.add_all Es6Classes.double_plus
         [Es6Classes.three_tenths; Es6Classes.fifth; Es6Classes.tenth]
         (Es6Classes.new_Calculator Es6Classes.double_zero))
    = S754_finite false 5404319552844595 (-53).
Proof.
  split; [|split; [|split; [|split; [|split]]]].
  - intros number plus zero first more. unfold Es6Classes.add_all. by rewrite foldl_app.
  - intros Hsafe.
    assert (Hnums : Es6Classes.add_all Double.add (Double.Finite <$> nums)
                      (Es6Classes.new_Calculator (Double.Finite 0))
                    = {| Es6Classes.result := Double.Finite (foldr Z.add 0 nums) |}).
    { unfold Es6Classes.new_Calculator. rewrite add_all_exact by (simpl; lia).
      by rewrite Z.add_0_l. }
    split; [by rewrite Hnums|].
    intros Hperm. rewrite Hnums. unfold Es6Classes.new_Calculator.
    rewrite add_all_exact by (rewrite <- (sum_abs_perm _ _ Hperm); simpl; lia).
    by rewrite Z.add_0_l, (foldr_add_perm _ _ Hperm).
  - vm_compute. reflexivity.
  - vm_compute. reflexivity.
  - vm_compute. reflexivity.
  - vm_compute. reflexivity.
Qed.

(** The chain of the guide, [calc.add(10).add(5).getResult()], and the
    same numbers the other way round. *)
Lemma calculator_chain_10_5 :
  Es6Classes.sum_abs [10; 5] ≤ 2 ^ 53
  ∧ [10; 5] ≡ₚ [5; 10]
  ∧ Es6Classes.getResult
      (Es6Classes.add_all Double.add (Double.Finite <$> [10; 5])
         (Es6Classes.new_Calculator (Double.Finite 0)))
    = Double.Finite 15
  ∧ Es6Classes.add_all Double.add (Double.Finite <$> [5; 10])
      (Es6Classes.new_Calculator (Double.Finite 0))
    = Es6Classes.add_all Double.add (Double.Finite <$> [10; 5])
        (Es6Classes.new_Calculator (Double.Finite 0)).
Proof.
  assert (Hsafe : Es6Classes.sum_abs [10; 5] ≤ 2 ^ 53) by (vm_compute; discriminate).
  assert (Hperm : [10; 5] ≡ₚ [5; 10]) by apply perm_swap.
  split; [exact Hsafe|]. split; [exact Hperm|].
  destruct (proj1 (proj2 (calculator_chain_sums [10; 5] [5; 10])) Hsafe) as [Hsum Horder].
  split; [exact Hsum | exact (Horder Hperm)].
Defined.

(** The same chain run on the doubles of the Standard Library. *)
Example calculator_chain_10_5_binary64 :
  double_value
    (Es6Classes.getResult
       (Es6Classes.add_all Es6Classes.double_plus
          [binary_normalize 53 1024 10 0 false; binary_normalize 53 1024 5 0 false]
          (Es6Classes.new_Calculator Es6Classes.double_zero)))
  = Some 15.
Proof. vm_compute. reflexivity. Qed.

Lemma new_Counters_state (names : list string) (cls : Es6Classes.CounterClass) :
  Es6Classes.count (Es6Classes.new_Counters names cls)
  = Es6Classes.count cls + Z.of_nat (length names)
  ∧ Es6Classes.instances (Es6Classes.new_Counters names cls)
    = Es6Classes.instances cls ++ (Es6Classes.Build_Counter <$> names).
Proof.
  revert cls. induction names as [|name names IH]; intros cls.
  - simpl. split; [lia | by rewrite app_nil_r].
  - cbn [Es6Classes.new_Counters foldl].
    change (foldl (λ c n, (Es6Classes.new_Counter n c).2) ?x names)
      with (Es6Classes.new_Counters names x).
    destruct (IH (Es6Classes.new_Counter name cls).2) as [-> ->]. simpl. split.
    + lia.
    + by rewrite <- app_assoc.
Qed.

(** X9: the static bookkeeping of [Counter]: after any number of
    [new Counter(name)] from the initial class, [getCount()] is the
    length of [getAllInstances()], and the instances are there in the
    order of their construction, one per call. *)
Theorem Counter_count_is_number_of_instances (names : list string) :
  let cls := Es6Classes.new_Counters names Es6Classes.Counter_initial in
  Es6Classes.getCount cls = Z.of_nat (length (Es6Classes.getAllInstances cls))
  ∧ Es6Classes.name <$> Es6Classes.getAllInstances cls = names.
Proof.
  cbv zeta. unfold Es6Classes.getCount, Es6Classes.getAllInstances.
  destruct (new_Counters_state names Es6Classes.Counter_initial) as [-> ->].
  simpl. rewrite length_fmap. split; [lia|].
  rewrite <- list_fmap_compose. by rewrite list_fmap_id.
Qed.

(** ** Array helpers *)

(** What [findIndex] finds: nothing, when no element satisfies the
    condition, or the place of the first element that does. *)
Lemma findIndex_from_cases {A} (condition : A → bool) (index : Z) (array : list A) :
  0 ≤ index →
  (Es6Arrays.findIndex_from index condition array = -1
   ∧ Forall (λ x, condition x = false) array)
  ∨ ∃ before x after,
      array = before ++ x :: after
      ∧ Forall (λ y, condition y = false) before
      ∧ condition x = true
      ∧ Es6Arrays.findIndex_from index condition array = index + Z.of_nat (length before).
Proof.
  revert index. induction array as [|a array IH]; intros index Hindex.
  - left. by split; [|constructor].
  - simpl. destruct (condition a) eqn:Ha.
    + right. exists [], a, array. repeat split; [by constructor | done | simpl; lia].
    + destruct (IH (index + 1)) as [[Hres Hall]|(before & x & after & -> & Hb & Hx & Hres)];
        [lia | |].
      * left. split; [done | by constructor].
      * right. exists (a :: before), x, after.
        repeat split; [by constructor | done | rewrite Hres; simpl; lia].
Qed.

Lemma findIndex_cases {A} (condition : A → bool) (array : list A) :
  (Es6Arrays.findIndex condition array = -1
   ∧ Forall (λ x, condition x = false) array)
  ∨ ∃ before x after,
      array = before ++ x :: after
      ∧ Forall (λ y, condition y = false) before
      ∧ condition x = true
      ∧ Es6Arrays.findIndex condition array = Z.of_nat (length before).
Proof.
  destruct (findIndex_from_cases condition 0 array) as [H|(b & x & a & H1 & H2 & H3 & H4)];
    [done | by left |].
  right. exists b, x, a. by rewrite Z.add_0_l in H4.
Qed.

(** X10: [updateProduct(products, id, updates)] returns [false] and
    leaves the array alone when no product has the id; otherwise it
    returns [true] and replaces the first product with that id, and no
    other, by the product with the properties of [updates] written over
    its own.  A product has the id when its [id] property, [undefined]
    if it has none, is strictly equal to it. *)
Theorem updateProduct_replaces_first_match {V : Type} (strict_eq : V → V → bool)
    (undefined : V) (products : list (gmap string V)) (id : V)
    (updates : gmap string V) :
  (Es6Arrays.updateProduct strict_eq undefined products id updates = (false, products)
   ∧ Forall (λ p, strict_eq (default undefined (p !! "id")) id = false) products)
  ∨ ∃ before p after,
      products = before ++ p :: after
      ∧ Forall (λ q, strict_eq (default undefined (q !! "id")) id = false) before
      ∧ strict_eq (default undefined (p !! "id")) id = true
      ∧ Es6Arrays.updateProduct strict_eq undefined products id updates
        = (true, before ++ (updates ∪ p) :: after)
      ∧ ∀ k, (updates ∪ p) !! k
             = match updates !! k with Some v => Some v | None => p !! k end.
Proof.
  unfold Es6Arrays.updateProduct.
  destruct (findIndex_cases (Es6Arrays.has_id strict_eq undefined id) products)
    as [[-> Hall]|(before & p & after & -> & Hb & Hp & ->)].
  - left. by split.
  - right. exists before, p, after. repeat split; [done | done | |].
    + replace (Z.of_nat (length before) =? -1) with false by (symmetry; apply Z.eqb_neq; lia).
      cbn [negb]. rewrite Nat2Z.id. rewrite list_lookup_total_middle by done.
      f_equal. replace (length before) with (length before + 0)%nat at 1 by lia.
      by rewrite insert_app_r.
    + intros k. rewrite lookup_union. by destruct (updates !! k), (p !! k).
Qed.

(** A product without an [id] is the one that [undefined] finds. *)
Example updateProduct_undefined_id :
  let strict_eq := λ a b : option Z,
    match a, b with
    | Some x, Some y => x =? y
    | None, None => true
    | _, _ => false
    end in
  Es6Arrays.updateProduct strict_eq None [ {[ "price" := Some 3 ]} ] None
    {[ "price" := Some 12 ]}
  = (true, [ {[ "price" := Some 12 ]} ]).
Proof. vm_compute. reflexivity. Qed.

(** X11: [removeByCondition(array, condition)] returns [null] and leaves
    the array alone when no element satisfies the condition; otherwise
    it returns the first element that does and takes that one
    occurrence, and nothing else, out of the array. *)
Theorem removeByCondition_takes_first_match {A : Type} (array : list A)
    (condition : A → bool) :
  (Es6Arrays.removeByCondition array condition = (None, array)
   ∧ Forall (λ x, condition x = false) array)
  ∨ ∃ before x after,
      array = before ++ x :: after
      ∧ Forall (λ y, condition y = false) before
      ∧ condition x = true
      ∧ Es6Arrays.removeByCondition array condition = (Some x, before ++ after).
Proof.
  unfold Es6Arrays.removeByCondition.
  destruct (findIndex_cases condition array)
    as [[-> Hall]|(before & x & after & -> & Hb & Hx & ->)].
  - left. by split.
  - right. exists before, x, after. repeat split; [done | done |].
    replace (Z.of_nat (length before) =? -1) with false by (symmetry; apply Z.eqb_neq; lia).
    cbn [negb]. rewrite Nat2Z.id. rewrite list_lookup_middle by done.
    by rewrite delete_middle.
Qed.

(** The call of the guide: the first number above 25 leaves the array. *)
Example removeByCondition_numbers :
  Es6Arrays.removeByCondition [10; 20; 30; 40; 50] (λ num, 25 <? num)
  = (Some 30, [10; 20; 40; 50]).
Proof. reflexivity. Qed.

(** X12: the polyfill of [Object.is] holds of every number and itself,
    [NaN] included, and tells [+0] from [-0]; so [includesValue] finds
    every value that is in the array, where a search with [===] misses
    [NaN]. *)
Theorem Object_is_reflexive (x : Generics.number) (array : list Generics.number) :
  Es6Arrays.Object_is x x = true
  ∧ Es6Arrays.Object_is (S754_zero false) (S754_zero true) = false
  ∧ (x ∈ array → Es6Arrays.includesValue array x = true)
  ∧ existsb (λ item, Generics.strict_eq_number item Generics.NaN) [Generics.NaN] = false.
Proof.
  assert (Hrefl : ∀ y, Es6Arrays.Object_is y y = true).
  { intros y. unfold Es6Arrays.Object_is.
    destruct (Generics.strict_eq_number y y) eqn:Hy; cbn [negb andb]; [|done].
    destruct (Generics.strict_eq_number y Es6Arrays.zero) eqn:Hz; cbn [andb]; [|done].
    destruct y as [s|s| |s m e]; try discriminate Hz; by destruct s. }
  split; [apply Hrefl|]. split; [reflexivity|]. split; [|reflexivity].
  intros Hin. unfold Es6Arrays.includesValue. apply existsb_exists.
  exists x. split; [by apply list_elem_of_In | apply Hrefl].
Qed.

Lemma includesValue_finds_NaN :
  Generics.NaN ∈ [S754_zero false; Generics.NaN]
  ∧ Es6Arrays.includesValue [S754_zero false; Generics.NaN] Generics.NaN = true.
Proof.
  assert (Hin : Generics.NaN ∈ [S754_zero false; Generics.NaN]).
  { apply list_elem_of_In. right. by left. }
  split; [exact Hin|].
  exact (proj1 (proj2 (proj2
    (Object_is_reflexive Generics.NaN [S754_zero false; Generics.NaN]))) Hin).
Defined.

(** ** Repository *)


(** ** More of DataStorage *)

Lemma filter_filter_comm {A} (f g : A → bool) (l : list A) :
  List.filter f (List.filter g l) = List.filter g (List.filter f l).
Proof.
  induction l as [|a l IH]; [done|]. simpl.
  destruct (f a) eqn:Hf, (g a) eqn:Hg; simpl; rewrite ?Hf, ?Hg, IH; done.
Qed.

Lemma filter_filter_same {A} (f : A → bool) (l : list A) :
  List.filter f (List.filter f l) = List.filter f l.
Proof.
  induction l as [|a l IH]; [done|]. simpl.
  destruct (f a) eqn:Hf; simpl; rewrite ?Hf, IH; done.
Qed.

Lemma filter_keeps_all {A} (f : A → bool) (l : list A) :
  (∀ i, i ∈ l → f i = true) → List.filter f l = l.
Proof.
  intros H. induction l as [|a l IH]; [done|]. simpl.
  rewrite (H a) by left. f_equal. apply IH. intros i Hi. apply H. by right.
Qed.

(** X14: what [getItems()] shows of [removeItem]: removing the same
    value twice is removing it once, removals of two values can be
    swapped, removing a value that no element is strictly equal to
    changes nothing, and a removal never makes the list longer. *)
Theorem removeItem_composes {T : Type} (strict_eq : T → T → bool)
    (s : @Generics.State T) (x y : T) :
  Generics.items (Generics.removeItem strict_eq x (Generics.removeItem strict_eq x s))
  = Generics.items (Generics.removeItem strict_eq x s)
  ∧ Generics.items (Generics.removeItem strict_eq x (Generics.removeItem strict_eq y s))
    = Generics.items (Generics.removeItem strict_eq y (Generics.removeItem strict_eq x s))
  ∧ ((∀ i, i ∈ Generics.items s → strict_eq i x = false) →
     Generics.items (Generics.removeItem strict_eq x s) = Generics.items s)
  ∧ (length (Generics.items (Generics.removeItem strict_eq x s))
     ≤ length (Generics.items s))%nat.
Proof.
  rewrite !items_removeItem. split; [|split; [|split]].
  - apply filter_filter_same.
  - apply filter_filter_comm.
  - intros Hnone. apply filter_keeps_all. intros i Hi. by rewrite (Hnone i Hi).
  - apply List.filter_length_le.
Qed.

(** In the storage of strings of the guide, "Bye" is not there to be
    removed. *)
Lemma removeItem_absent_strings :
  let s := Generics.addItem "World" (Generics.addItem "Hello" (Generics.new ∅)) in
  (∀ i, i ∈ Generics.items s → Generics.strict_eq_string i "Bye" = false)
  ∧ Generics.items (Generics.removeItem Generics.strict_eq_string "Bye" s)
    = Generics.items s.
Proof.
  cbv zeta.
  assert (Hnone : ∀ i,
    i ∈ Generics.items
          (Generics.addItem "World" (Generics.addItem "Hello" (Generics.new ∅))) →
    Generics.strict_eq_string i "Bye" = false).
  { intros i. rewrite !items_addItem, items_new. simpl. intros Hi.
    apply list_elem_of_In in Hi. destruct Hi as [<-|[<-|[]]]; reflexivity. }
  split; [exact Hnone|].
  exact (proj1 (proj2 (proj2
    (removeItem_composes Generics.strict_eq_string _ "Bye" "Bye"))) Hnone).
Defined.

Lemma apart_step {T} (strict_eq : T → T → bool) (other : Generics.loc)
    (op : @Generics.Op T) (s : @Generics.State T) :
  apart other s →
  apart other (DataStorage_exec strict_eq [op] s)
  ∧ Generics.read other (DataStorage_exec strict_eq [op] s).2 = Generics.read other s.2.
Proof.
  intros (Hwf & Hother & Hne). destruct s as [this h]. unfold Generics.wf in Hwf.
  simpl in Hwf, Hother, Hne.
  assert (Hfresh : fresh (dom h) ≠ other).
  { intros Heq. rewrite <- Heq in Hother. by apply is_fresh in Hother. }
  unfold apart, Generics.wf, Generics.read.
  destruct op as [x|x|]; simpl; rewrite !dom_insert_L, lookup_insert_ne by done;
    (split; [|done]); repeat split; try done;
    apply elem_of_union; (by right) || (left; by apply elem_of_singleton).
Qed.

Lemma apart_exec {T} (strict_eq : T → T → bool) (other : Generics.loc)
    (ops : list (@Generics.Op T)) (s : @Generics.State T) :
  apart other s →
  Generics.read other (DataStorage_exec strict_eq ops s).2 = Generics.read other s.2.
Proof.
  revert s. induction ops as [|op ops IH]; intros s Hs; [done|].
  destruct (apart_step strict_eq other op s Hs) as [Hnext Hsame].
  rewrite <- Hsame. destruct op; simpl in *; by apply IH.
Qed.

(** X15: two storages in one program do not interfere: whatever
    sequence of [addItem], [removeItem] and [getItems] runs on one of
    them, [getItems()] of the other returns what it returned before. *)
Theorem storages_do_not_interfere {T : Type} (strict_eq : T → T → bool)
    (ops : list (@Generics.Op T)) (s : @Generics.State T)
    (other : @Generics.DataStorage) :
  Generics.wf s →
  Generics.data other ∈ dom s.2 →
  Generics.data other ≠ Generics.data s.1 →
  Generics.items (other, (DataStorage_exec strict_eq ops s).2)
  = Generics.items (other, s.2).
Proof.
  intros Hwf Hother Hne. rewrite !items_read. simpl.
  by apply apart_exec.
Qed.

(** Two storages of strings made one after the other, as in the guide. *)
Lemma storages_do_not_interfere_strings :
  let first := Generics.addItem "Hello" (Generics.new (T := string) ∅) in
  let second := Generics.new first.2 in
  Generics.wf second
  ∧ Generics.data first.1 ∈ dom second.2
  ∧ Generics.data first.1 ≠ Generics.data second.1
  ∧ Generics.items
      (first.1, (DataStorage_exec Generics.strict_eq_string
                   [Generics.Add "World"; Generics.Remove "Hello"; Generics.Get] second).2)
    = Generics.items (first.1, second.2).
Proof.
  intros first second.
  assert (Hwf : Generics.wf second) by apply wf_new.
  assert (Hin : Generics.data first.1 ∈ dom second.2) by (vm_compute; reflexivity).
  assert (Hne : Generics.data first.1 ≠ Generics.data second.1) by (vm_compute; discriminate).
  split; [exact Hwf|]. split; [exact Hin|]. split; [exact Hne|].
  exact (storages_do_not_interfere Generics.strict_eq_string _ second first.1 Hwf Hin Hne).
Defined.

(** ** Recovery from failure *)

(** X16: [safeGetUser(id)] never rejects and requests the URL of the
    user exactly once: it resolves with the user when [getUser(id)]
    does, leaving the error console alone, and with [null], after one
    line on the error console that carries the reason, when [getUser(id)]
    rejects, be it [fetch] or [response.json()] that failed. *)
Theorem safeGetUser_never_rejects (User : Type)
    (server : list string → string
              → Async.Settled Es6Guide.Error (Async.Settled Es6Guide.Error User))
    (id : Z) (w : Recovery.World) :
  Recovery.requests (Recovery.safeGetUser User server id w).2
  = Recovery.requests w ++ ["/api/users/" +:+ pretty id]
  ∧ match (Recovery.getUser User server id w).1 with
    | Async.Fulfilled user =>
        (Recovery.safeGetUser User server id w).1 = Async.Fulfilled (Some user)
        ∧ Recovery.errors (Recovery.safeGetUser User server id w).2 = Recovery.errors w
    | Async.Rejected error =>
        (Recovery.safeGetUser User server id w).1 = Async.Fulfilled None
        ∧ Recovery.errors (Recovery.safeGetUser User server id w).2
          = Recovery.errors w ++ [("Failed to fetch user:", error)]
    end.
Proof.
  unfold Recovery.safeGetUser, Recovery.getUser, Async.catch_, mbind, mret,
    Promise_bind, Promise_ret, Async.then_, Recovery.fetch, Recovery.response_json.
  destruct (server _ _) as [[user|e]|e]; simpl; auto.
Qed.

(** X17: [attemptOperation()] never rejects and calls [Math.random] at
    most twice: it resolves with the success of the first attempt after
    one second; failing that, with the success of the second attempt
    after two seconds and one printed line; failing that too, with
    'Fallback value' after two seconds and two printed lines. *)
Theorem attemptOperation_never_rejects (Random : Type) (random : nat → Random)
    (above_half : Random → bool) (show : Random → string) (w : Recovery.Env) :
  Recovery.attemptOperation Random random above_half show w
  = if above_half (random (Recovery.draws w)) then
      (Async.Fulfilled ("Success with " +:+ show (random (Recovery.draws w))),
       {| Recovery.now := Recovery.now w + 1000;
          Recovery.draws := S (Recovery.draws w);
          Recovery.stdout := Recovery.stdout w |})
    else if above_half (random (S (Recovery.draws w))) then
      (Async.Fulfilled ("Success with " +:+ show (random (S (Recovery.draws w)))),
       {| Recovery.now := Recovery.now w + 1000 + 1000;
          Recovery.draws := S (S (Recovery.draws w));
          Recovery.stdout := Recovery.stdout w
                             ++ ["First attempt failed, trying again..."] |})
    else
      (Async.Fulfilled "Fallback value",
       {| Recovery.now := Recovery.now w + 1000 + 1000;
          Recovery.draws := S (S (Recovery.draws w));
          Recovery.stdout := (Recovery.stdout w
                              ++ ["First attempt failed, trying again..."])
                             ++ ["Second attempt failed, using fallback"] |}).
Proof.
  unfold Recovery.attemptOperation, Async.catch_, mbind, mret, Promise_bind, Promise_ret,
    Async.then_, Recovery.riskyOperation, Recovery.console_log, Async.effect, Async.resolve.
  destruct (above_half (random (Recovery.draws w))); [done|]. simpl.
  by destruct (above_half (random (S (Recovery.draws w)))).
Qed.

(** ** The tagged template *)

Lemma string_app_assoc (a b c : string) : (a +:+ b) +:+ c = a +:+ (b +:+ c).
Proof.
  induction a as [|ch a IH]; [done|].
  change (String ch ((a +:+ b) +:+ c) = String ch (a +:+ (b +:+ c))). by f_equal.
Qed.

Lemma string_app_nil_r (a : string) : a +:+ EmptyString = a.
Proof.
  induction a as [|ch a IH]; [done|].
  change (String ch (a +:+ EmptyString) = String ch a). by f_equal.
Qed.

Lemma highlight_from (strings : list string) (values : list Runtime.JsVal)
    (acc : string) (i : nat) :
  Es6Syntax.reduce_from
    (λ result string i,
       (result +:+ string)
       +:+ (if Runtime.truthy (default Runtime.VUndefined (values !! i))
            then "<strong>"
                 +:+ Es6Syntax.to_string (default Runtime.VUndefined (values !! i))
                 +:+ "</strong>"
            else EmptyString))
    acc i strings
  = acc +:+ Es6Syntax.interleave strings (drop i values).
Proof.
  revert acc i. induction strings as [|s strings IH]; intros acc i.
  - simpl. by rewrite string_app_nil_r.
  - cbn [Es6Syntax.reduce_from Es6Syntax.interleave]. rewrite IH.
    rewrite !string_app_assoc. do 2 f_equal.
    destruct (values !! i) as [v|] eqn:Hv.
    + rewrite (drop_S _ _ _ Hv). reflexivity.
    + apply lookup_ge_None in Hv. rewrite !drop_ge by lia. reflexivity.
Qed.

Lemma interleave_falsy (strings : list string) (values : list Runtime.JsVal) :
  Forall (λ v, Runtime.truthy v = false) values →
  Es6Syntax.interleave strings values = Es6Syntax.interleave strings [].
Proof.
  revert values. induction strings as [|s strings IH]; intros values Hall; [done|].
  destruct Hall as [|v values Hv Hall]; [done|].
  cbn [Es6Syntax.interleave tail]. rewrite Hv. f_equal. f_equal.
  rewrite (IH values Hall). by destruct strings.
Qed.

(** X18: [highlight] puts each value, wrapped in [<strong>], between
    the string before it and the string after it; a value that is falsy
    (0, the empty string, [undefined]) is left out altogether, mark-up
    and text: with only such values the result is the one for no values
    at all. *)
Theorem highlight_interleaves (strings : list string) (values : list Runtime.JsVal) :
  Es6Syntax.highlight strings values = Es6Syntax.interleave strings values
  ∧ (Forall (λ v, Runtime.truthy v = false) values →
     Es6Syntax.highlight strings values = Es6Syntax.highlight strings []).
Proof.
  assert (H : ∀ vs, Es6Syntax.highlight strings vs = Es6Syntax.interleave strings vs).
  { intros vs. unfold Es6Syntax.highlight, Es6Syntax.reduce.
    rewrite highlight_from. by rewrite drop_0. }
  split; [apply H|]. intros Hall. rewrite !H. by apply interleave_falsy.
Qed.

(** The template of the guide, and the same with a score of 0. *)
Lemma highlight_score :
  Forall (λ v, Runtime.truthy v = false) [Runtime.VNum 0]
  ∧ Es6Syntax.highlight ["User "; " scored "; " points!"]
      [Runtime.VStr "Alice"; Runtime.VNum 95]
    = "User <strong>Alice</strong> scored <strong>95</strong> points!"
  ∧ Es6Syntax.highlight ["Score: "; " points"] [Runtime.VNum 0] = "Score:  points".
Proof.
  assert (Hall : Forall (λ v, Runtime.truthy v = false) [Runtime.VNum 0])
    by (by repeat constructor).
  split; [exact Hall|]. split; [reflexivity|].
  rewrite (proj2 (highlight_interleaves ["Score: "; " points"] [Runtime.VNum 0]) Hall).
  reflexivity.
Defined.

(** ** The setter of Circle *)

Lemma set_radius_keeps_valid (value : Generics.number) (this : Es6Syntax.Circle) :
  SFleb (Es6Syntax.get_radius this) (S754_zero false) = false →
  SFleb (Es6Syntax.get_radius (Es6Syntax.set_radius value this).2) (S754_zero false)
  = false.
Proof.
  intros Hthis. unfold Es6Syntax.set_radius.
  by destruct (SFleb value (S754_zero false)) eqn:Hvalue.
Qed.

(** X19: the setter of [Circle] refuses every value that is [<= 0],
    with an error and without a change; so a circle made with a radius
    that is not [<= 0] never gets one that is, whatever is assigned.
    The constructor does not check, and the setter lets [NaN] through. *)
Theorem Circle_radius_stays_valid (radius : Generics.number)
    (values : list Generics.number) (value : Generics.number) (this : Es6Syntax.Circle) :
  (SFleb radius (S754_zero false) = false →
   SFleb (Es6Syntax.get_radius
            (Es6Syntax.set_radius_all values (Es6Syntax.new_Circle radius)))
         (S754_zero false) = false)
  ∧ (SFleb value (S754_zero false) = true →
     Es6Syntax.set_radius value this
     = (Some {| Es6Guide.message := "Radius must be positive" |}, this))
  ∧ Es6Syntax.get_radius (Es6Syntax.new_Circle value) = value
  ∧ Es6Syntax.set_radius Generics.NaN this
    = (None, {| Es6Syntax._radius := Generics.NaN |}).
Proof.
  split; [|split; [|split]].
  - intros Hradius. unfold Es6Syntax.set_radius_all.
    assert (Hstart : SFleb (Es6Syntax.get_radius (Es6Syntax.new_Circle radius))
                       (S754_zero false) = false) by done.
    revert Hstart. generalize (Es6Syntax.new_Circle radius) as circle.
    induction values as [|v values IH]; intros circle Hcircle; [done|].
    simpl. apply IH. by apply set_radius_keeps_valid.
  - intros Hvalue. unfold Es6Syntax.set_radius. by rewrite Hvalue.
  - reflexivity.
  - reflexivity.
Qed.

(** The circle of the guide: radius 5, then 10, then the refused -5. *)
Lemma Circle_radius_5_10 :
  let five := S754_finite false 5 0 in
  let ten := S754_finite false 5 1 in
  let minus_five := S754_finite true 5 0 in
  SFleb five (S754_zero false) = false
  ∧ SFleb minus_five (S754_zero false) = true
  ∧ SFleb (Es6Syntax.get_radius
             (Es6Syntax.set_radius_all [ten; minus_five] (Es6Syntax.new_Circle five)))
          (S754_zero false) = false
  ∧ Es6Syntax.set_radius minus_five (Es6Syntax.new_Circle ten)
    = (Some {| Es6Guide.message := "Radius must be positive" |}, Es6Syntax.new_Circle ten).
Proof.
  intros five ten minus_five.
  split; [reflexivity|]. split; [reflexivity|]. split.
  - exact (proj1 (Circle_radius_stays_valid five [ten; minus_five] minus_five
                    (Es6Syntax.new_Circle ten)) eq_refl).
  - exact (proj1 (proj2 (Circle_radius_stays_valid five [ten; minus_five] minus_five
                           (Es6Syntax.new_Circle ten))) eq_refl).
Defined.

(** ** The calls that processUsers starts *)

Section ProcessUsers.

Variables UserId Params Data : Type.
Variable JSON_stringify : Params → string.
Variable server : list Es6Guide.Request → Es6Guide.Request
                  → Async.Settled Es6Guide.Error (Es6Guide.Response Data).
Variable id_params : UserId → Params.

Lemma fetchData_in_two_parts endpoint params (w : Es6Guide.Env Data) :
  Es6Guide.fetchData Params Data JSON_stringify server endpoint params w
  = fetchData_finish Data
      (fetchData_start Params Data JSON_stringify server endpoint params w).1
      (fetchData_start Params Data JSON_stringify server endpoint params w).2.
Proof.
  unfold Es6Guide.fetchData, fetchData_start.
  destruct (Es6Guide.cache Data (Es6Guide.this Data w) !! _) as [cached|]; [done|].
  unfold fetchData_finish, Async.catch_, mbind, Promise_bind, Async.then_. simpl.
  reflexivity.
Qed.

Lemma uncached_same_this (w w' : Es6Guide.Env Data) (ids : list UserId) :
  Es6Guide.this Data w' = Es6Guide.this Data w →
  uncached UserId Params Data JSON_stringify id_params w' ids
  = uncached UserId Params Data JSON_stringify id_params w ids
  ∧ user_request UserId Params Data JSON_stringify id_params w'
    = user_request UserId Params Data JSON_stringify id_params w.
Proof.
  intros H. unfold uncached, user_request, user_key. by rewrite H.
Qed.

Lemma processUsers_map_effect (ids : list UserId) (w : Es6Guide.Env Data) :
  Es6Guide.this Data
    (processUsers_map UserId Params Data JSON_stringify server id_params ids w).2
  = Es6Guide.this Data w
  ∧ Es6Guide.errors Data
      (processUsers_map UserId Params Data JSON_stringify server id_params ids w).2
    = Es6Guide.errors Data w
  ∧ Es6Guide.requests Data
      (processUsers_map UserId Params Data JSON_stringify server id_params ids w).2
    = Es6Guide.requests Data w
      ++ (user_request UserId Params Data JSON_stringify id_params w
          <$> uncached UserId Params Data JSON_stringify id_params w ids)
  ∧ length (processUsers_map UserId Params Data JSON_stringify server id_params ids w).1
    = length ids.
Proof.
  revert w. induction ids as [|id ids IH]; intros w.
  - simpl. by rewrite app_nil_r.
  - cbn [processUsers_map]. unfold fetchData_start.
    cbn [uncached List.filter].
    change (Es6Guide.cache Data (Es6Guide.this Data w)
            !! ((Es6Guide.apiUrl Data (Es6Guide.this Data w) +:+ "/" +:+ "users")
                +:+ "-" +:+ JSON_stringify (id_params id)))
      with (Es6Guide.cache Data (Es6Guide.this Data w)
            !! user_key UserId Params Data JSON_stringify id_params w id).
    destruct (Es6Guide.cache Data (Es6Guide.this Data w)
              !! user_key UserId Params Data JSON_stringify id_params w id)
      as [cached|] eqn:Hcache.
    + rewrite bool_decide_eq_false_2 by done.
      specialize (IH w).
      destruct (processUsers_map _ _ _ _ _ _ ids w) as [others w''].
      simpl in *. destruct IH as (H1 & H2 & H3 & H4).
      split; [done|]. split; [done|]. split; [exact H3 | by f_equal].
    + rewrite bool_decide_eq_true_2 by done. unfold Es6Guide.fetch.
      match goal with
      | |- context [processUsers_map _ _ _ _ _ _ ids ?W] =>
          specialize (IH W);
          destruct (uncached_same_this w W ids eq_refl) as [Hu Hr]
      end.
      destruct (processUsers_map _ _ _ _ _ _ ids _) as [others w''].
      cbn [fst snd Es6Guide.this Es6Guide.requests Es6Guide.errors] in *.
      destruct IH as (H1 & H2 & H3 & H4).
      split; [done|]. split; [done|]. split; [|simpl; by f_equal].
      rewrite H3, Hu, Hr. cbn [fmap list_fmap].
      by rewrite <- app_assoc.
Qed.

End ProcessUsers.

(** X20: the [map] of [processUsers] starts all its [fetchData] calls
    before any answer is there, so the cache cannot help within one
    batch: every id of the array whose key is not in the cache when
    [processUsers] is called costs one request, in the order of the
    array and once per occurrence, and neither the cache nor the error
    console changes meanwhile.  The two parts of [fetchData], run one
    after the other, are [fetchData]. *)
Theorem processUsers_requests_every_uncached_id
    (UserId Params Data : Type) (JSON_stringify : Params → string)
    (server : list Es6Guide.Request → Es6Guide.Request
              → Async.Settled Es6Guide.Error (Es6Guide.Response Data))
    (id_params : UserId → Params) (userIds : list UserId) (w : Es6Guide.Env Data) :
  let after := (processUsers_map UserId Params Data JSON_stringify server id_params
                  userIds w).2 in
  Es6Guide.requests Data after
  = Es6Guide.requests Data w
    ++ (user_request UserId Params Data JSON_stringify id_params w
        <$> uncached UserId Params Data JSON_stringify id_params w userIds)
  ∧ Es6Guide.this Data after = Es6Guide.this Data w
  ∧ Es6Guide.errors Data after = Es6Guide.errors Data w
  ∧ ∀ endpoint params,
      Es6Guide.fetchData Params Data JSON_stringify server endpoint params w
      = fetchData_finish Data
          (fetchData_start Params Data JSON_stringify server endpoint params w).1
          (fetchData_start Params Data JSON_stringify server endpoint params w).2.
Proof.
  cbv zeta.
  destruct (processUsers_map_effect UserId Params Data JSON_stringify server id_params
              userIds w) as (H1 & H2 & H3 & _).
  split; [exact H3|]. split; [exact H1|]. split; [exact H2|].
  intros endpoint params. apply fetchData_in_two_parts.
Qed.

(** The same id twice in a batch, with an empty cache: two requests. *)
Example processUsers_same_id_twice :
  let stringify := λ id : Z, "{id:" +:+ pretty id +:+ "}" in
  let server := λ (_ : list Es6Guide.Request) (_ : Es6Guide.Request),
    Async.Fulfilled
      {| Es6Guide.ok := true; Es6Guide.status := 200; Es6Guide.statusText := "OK";
         Es6Guide.json := Async.Fulfilled "Tiff" |} in
  let w := {| Es6Guide.this := Es6Guide.new_DataProcessor string "https://api.example.com";
              Es6Guide.requests := []; Es6Guide.errors := [] |} in
  length (Es6Guide.requests string
            (processUsers_map Z Z string stringify server (λ id, id) [1; 1] w).2) = 2%nat.
Proof. reflexivity. Qed.
